(** * FaceSwapLab: the swap pipeline of [scripts/faceswaplab_swapping]

    A shallow embedding of [swapper.py] and of the paste-back step of
    [upscaled_inswapper.py], with the properties of the face locator, the
    identity blender, the unit pipeline and the final merge.

    Conventions.
    - Bounding boxes and embeddings are [float32] arrays in the source, and
      so is the merge of [UpscaledINSwapper.get], followed by a cast to
      [uint8]; they are embedded with the IEEE-754 operations of
      [SpecFloat] at precision 24, rounding included.
    - A similarity score is embedded as an exact rational ([Qc]): the value
      of the number that the library returns.
    - Python exceptions are the [Raise] results of the [exc] monad.
    - The detector, the swap engine, the NSFW check, OpenCV and the option
      store are parameters of the sections that use them. *)

From Stdlib Require Import ZArith QArith Qcanon List Bool Lia Sorting.Sorted.
From Stdlib Require Import Floats.SpecFloat.
From stdpp Require Import gmap list strings.
From Equations Require Import Equations.

Open Scope Z_scope.

(** ** Python exceptions *)

(** The exceptions that the embedded code raises itself, [Cv2Error] for
    the [cv2.error] of a failed OpenCV assertion, and [ExternalError] for
    what a collaborator (model loading, the swap engine, scikit-learn) may
    raise. *)
Inductive exn : Type :=
| ValueError
| TypeError
| AttributeError
| AssertionError
| OverflowError
| Cv2Error
| ExternalError.

Inductive exc (A : Type) : Type :=
| Ok (a : A)
| Raise (e : exn).
Arguments Ok {A} a.
Arguments Raise {A} e.

Definition exc_bind {A B} (m : exc A) (k : A -> exc B) : exc B :=
  match m with
  | Ok a => k a
  | Raise e => Raise e
  end.

Notation "x <-! m ; k" := (exc_bind m (fun x => k))
  (at level 100, m at next level, right associativity).

(** [for x in xs: acc = body(acc, x)], stopping at the first exception. *)
Fixpoint exc_fold {A S} (body : S -> A -> exc S) (xs : list A) (s : S) : exc S :=
  match xs with
  | [] => Ok s
  | x :: xs' => s' <-! body s x; exc_fold body xs' s'
  end.

(** Remembers the equation when a [with] clause inspects a value. *)
Definition inspect {A} (a : A) : {b | a = b} := exist _ a eq_refl.

(** ** NumPy numbers *)

Module Np.

Abbreviation float32 := spec_float.
Abbreviation float64 := spec_float.

(** [np.float32(z)] and [np.float64(z)], rounded to nearest even. *)
Definition f32 (z : Z) : float32 := binary_normalize 24 128 z 0 false.
Definition f64 (z : Z) : float64 := binary_normalize 53 1024 z 0 false.

Definition add32 : float32 -> float32 -> float32 := SFadd 24 128.
Definition sub32 : float32 -> float32 -> float32 := SFsub 24 128.
Definition mul32 : float32 -> float32 -> float32 := SFmul 24 128.
Definition div32 : float32 -> float32 -> float32 := SFdiv 24 128.
Definition sqrt32 : float32 -> float32 := SFsqrt 24 128.
Definition mul64 : float64 -> float64 -> float64 := SFmul 53 1024.
Definition sqrt64 : float64 -> float64 := SFsqrt 53 1024.

(** The integer part of a float (towards zero); none for [nan] and [inf]. *)
Definition trunc (x : spec_float) : option Z :=
  match x with
  | S754_zero _ => Some 0
  | S754_finite s m e =>
      let v := Z.shiftl (Z.pos m) e in
      Some (if s then - v else v)
  | _ => None
  end.

(** [x.astype(np.uint8)]: the C conversion; it is only defined by the
    language for values whose integer part fits, and wraps here otherwise. *)
Definition to_uint8 (x : float32) : Z :=
  match trunc x with
  | Some z => z mod 256
  | None => 0
  end.

(** A Python number read from the option store: an [int] or a [float]. *)
Inductive pynum : Type :=
| PyInt (z : Z)
| PyFloat (x : float64).

(** [n * x] for a Python [int] [n]. *)
Definition py_mul (n : Z) (x : pynum) : pynum :=
  match x with
  | PyInt z => PyInt (n * z)
  | PyFloat y => PyFloat (mul64 (f64 n) y)
  end.

(** [int(x)]: [ValueError] on [nan], [OverflowError] on an infinity. *)
Definition py_int (x : pynum) : exc Z :=
  match x with
  | PyInt z => Ok z
  | PyFloat y =>
      match trunc y with
      | Some z => Ok z
      | None =>
          Raise (match y with
                 | S754_infinity _ => OverflowError
                 | _ => ValueError
                 end)
      end
  end.

(** Two-dimensional arrays, row by row. *)
Abbreviation array2 A := (list (list A)).

Definition map2 {A B} (f : A -> B) (a : array2 A) : array2 B :=
  (fun row : list A => f <$> row) <$> a.

(** [a.shape[0]] and [a.shape[1]] *)
Definition height {A} (a : array2 A) : nat := length a.
Definition width {A} (a : array2 A) : nat :=
  match a with
  | [] => 0%nat
  | row :: _ => length row
  end.

(** [np.full((h, w), v)] *)
Definition full {A} (shape : nat * nat) (v : A) : array2 A :=
  replicate shape.1 (replicate shape.2 v).

(** [np.where(a == v)]: the row indices and the column indices of the
    entries equal to [v]. *)
Definition where_eq (a : array2 float32) (v : float32) : list nat * list nat :=
  let hits :=
    concat (imap (fun i row =>
                    omap (fun '(j, x) =>
                            if SFeqb x v then Some (i, j) else None)
                         (imap pair row))
                 a) in
  (hits.*1, hits.*2).

(** [np.max(l) - np.min(l)]; both raise on an empty array. *)
Definition extent (l : list nat) : exc Z :=
  match l with
  | [] => Raise ValueError
  | x :: l' =>
      Ok (Z.of_nat (foldr Nat.max x l') - Z.of_nat (foldr Nat.min x l'))
  end.

(** The number that a float stands for; none for [nan] and [inf]. *)
Definition value (x : spec_float) : option Qc :=
  match x with
  | S754_zero _ => Some 0%Qc
  | S754_finite s m e =>
      Some (Q2Qc (inject_Z (cond_Zopp s (Z.pos m)) * 2 ^ e)%Q)
  | _ => None
  end.

End Np.

(** ** The cosine of scikit-learn *)

Module Sklearn.

Import Np.

(** Modelled from the library's documentation:
    [sklearn.metrics.pairwise.cosine_similarity] "computes similarity as
    the normalized dot product of X and Y:
    K(X, Y) = <X, Y> / (||X||*||Y||)".  Each row is divided by its L2 norm
    ([preprocessing.normalize]), and the dot product of the two normalized
    rows is returned.  A row whose norm is zero is left as it is: the
    library divides by 1 where the norm is below ten machine epsilons (in
    its older releases, where the norm is zero).  On [float32] rows every
    step is [float32]; the sums are taken here in index order.  Rows of
    different lengths raise [ValueError]. *)
Definition dot (a b : list float32) : float32 :=
  foldl add32 (S754_zero false) (zip_with mul32 a b).

Definition row_norm (a : list float32) : float32 := sqrt32 (dot a a).

(** [np.finfo(np.float32).eps], 2^-23. *)
Definition eps32 : float32 := S754_finite false 8388608 (-46).

Definition normalize (a : list float32) : list float32 :=
  let norm := row_norm a in
  let norm := if SFltb norm (mul32 (f32 10) eps32) then f32 1 else norm in
  (fun x => div32 x norm) <$> a.

Definition cosine_similarity (a b : list float32) : exc float32 :=
  if (length a =? length b)%nat then Ok (dot (normalize a) (normalize b))
  else Raise ValueError.

End Sklearn.

(** ** Faces *)

Module Swapper.

Import Np.

(** [insightface.app.common.Face] is a dictionary with attribute access: a
    key that was never set reads as [None].  The detector sets all of them;
    [blend_faces] builds a face from [embedding], [gender] and [age] only.
    The bounding box, the key points and the embedding are [float32]
    arrays. *)
Record Face : Type := mkFace {
  bbox : option (float32 * float32 * float32 * float32);
  kps : option (list (float32 * float32));
  embedding : list float32;
  gender : Z;
  age : Z
}.

(** [sorted(l, key=key)]: stable, and decided by [<] on the keys alone.
    For keys that are numbers this is the stable sort, whatever way Python
    merges its runs; a key that is [nan] compares false with everything,
    the order of Python's result then depends on its merge strategy, and
    such keys are left out of what is proved below. *)
Fixpoint insert_by {A} (key : A -> float32) (x : A) (l : list A) : list A :=
  match l with
  | [] => [x]
  | y :: l' =>
      if SFltb (key y) (key x) then y :: insert_by key x l'
      else x :: l
  end.

Definition sort_by {A} (key : A -> float32) (l : list A) : list A :=
  foldr (insert_by key) [] l.

(** [sorted(l, key=key, reverse=reverse)]: with [reverse] the list is
    reversed, sorted and reversed again, which keeps the sort stable. *)
Definition sorted {A} (key : A -> float32) (reverse : bool) (l : list A)
    : list A :=
  if reverse then rev (sort_by key (rev l)) else sort_by key l.

(** [lambda x: (x.bbox[2] - x.bbox[0]) * (x.bbox[3] - x.bbox[1])], on
    [float32] scalars. *)
Definition bbox_area (f : Face) : option float32 :=
  match bbox f with
  | Some (x0, y0, x1, y1) => Some (mul32 (sub32 x1 x0) (sub32 y1 y0))
  | None => None
  end.

(** [lambda x: x.bbox[0]] *)
Definition bbox_left (f : Face) : option float32 :=
  match bbox f with
  | Some (x0, _, _, _) => Some x0
  | None => None
  end.

(** [sorted] computes every key before it compares any two; a face without
    a bounding box makes the key raise, and [get_faces] answers that with
    the empty list. *)
Definition sorted_or_empty (key : Face -> option float32) (reverse : bool)
    (l : list Face) : list Face :=
  if forallb (fun f => bool_decide (is_Some (key f))) l
  then sorted (fun f => default (S754_zero false) (key f)) reverse l
  else [].

Section Locator.

Variable image : Type.

(** [face_analyser.prepare(ctx_id=0, det_thresh, det_size)] on a private
    copy of the analysis model, then [face_analyser.get(img_data)]. *)
Variable detect : image -> Z * Z -> Qc -> list Face.

(** [opts.data.get("faceswaplab_detection_threshold", 0.5)] *)
Variable opt_detection_threshold : option Qc.

Definition detection_threshold : Qc :=
  default (Q2Qc (1 # 2)) opt_detection_threshold.

Definition resolve_thresh (det_thresh : option Qc) : Qc :=
  default detection_threshold det_thresh.

(** The test of line 226. *)
Definition must_retry (face : list Face) (det_size : Z * Z) : bool :=
  (length face =? 0)%nat && (320 <? fst det_size) && (320 <? snd det_size).

Equations? get_faces (img_data : image) (det_size : Z * Z)
    (det_thresh : option Qc) (sort_by_face_size : bool) : list Face
    by wf (Z.to_nat (fst det_size)) lt :=
  get_faces img_data det_size det_thresh sort_by_face_size with
    inspect (must_retry
               (detect img_data det_size (resolve_thresh det_thresh))
               det_size) := {
    | exist _ true _ =>
        get_faces img_data (fst det_size / 2, snd det_size / 2)
          (Some (resolve_thresh det_thresh)) false
    | exist _ false _ =>
        let face := detect img_data det_size (resolve_thresh det_thresh) in
        if sort_by_face_size then sorted_or_empty bbox_area true face
        else sorted_or_empty bbox_left false face }.
Proof.
  unfold must_retry in e. simpl in e.
  apply andb_prop in e as [e _]. apply andb_prop in e as [_ e].
  apply Z.ltb_lt in e.
  match goal with
  | |- (Z.to_nat (?w `div` 2) < _)%nat =>
      assert (0 <= w `div` 2 < w) by (split; [apply Z.div_pos | apply Z.div_lt]; lia)
  end.
  lia.
Qed.

End Locator.

(** *** The similarity scorer *)

Section Scorer.

(** [sklearn.metrics.pairwise.cosine_similarity] on two single rows; it
    raises when the rows have different lengths. *)
Variable cosine_similarity : list float32 -> list float32 -> exc Qc.

(** [max(0, similarity[0, 0])] *)
Definition cosine_similarity_face (face1 face2 : Face) : exc Qc :=
  similarity <-! cosine_similarity (embedding face1) (embedding face2);
  Ok (if bool_decide (0 < similarity)%Qc then similarity else 0%Qc).

End Scorer.

(** *** The identity blender *)

(** [a + b] on two [float32] rows of the same length. *)
Definition add_rows (a b : list float32) : list float32 :=
  zip_with add32 a b.

(** [np.mean(embeddings, axis=0)] on [float32] rows: the reduction along
    axis 0 adds the rows one after the other, in list order, and the sum is
    divided by the number of rows; every addition and the division round to
    [float32]. *)
Definition np_mean (embeddings : list (list float32)) : list float32 :=
  match embeddings with
  | [] => []
  | e0 :: rest =>
      (fun s => div32 s (f32 (Z.of_nat (length embeddings))))
        <$> foldl add_rows e0 rest
  end.

(** [np.array_equal]: the same shape and [==] at every place, so that a
    [nan] equals nothing and the two zeros are equal. *)
Definition array_equal (a b : list float32) : bool :=
  (length a =? length b)%nat
  && forallb (fun xy : float32 * float32 => SFeqb xy.1 xy.2) (zip a b).

Definition blend_faces (faces : list Face) : exc (option Face) :=
  let embeddings := embedding <$> faces in
  match faces with
  | [] => Ok None
  | face0 :: _ =>
      let embedding_shape := length (embedding face0) in
      if forallb (fun e => (length e =? embedding_shape)%nat) embeddings then
        let blended_embedding := np_mean embeddings in
        let blended :=
          mkFace None None blended_embedding (gender face0) (age face0) in
        if (1 <? length faces)%nat
           && array_equal (embedding blended) (embedding face0)
        then Raise AssertionError
        else Ok (Some blended)
      else Raise ValueError
  end.

(** *** Swapping *)

Record ImageResult (image : Type) : Type := mkImageResult {
  result_image : image;
  similarity : gmap nat Qc;
  ref_similarity : gmap nat Qc
}.
Arguments mkImageResult {image} _ _ _.
Arguments result_image {image} _.
Arguments similarity {image} _.
Arguments ref_similarity {image} _.

(** Modelled from the spec: [FaceSwapUnitSettings]
    ([scripts/faceswaplab_ui/faceswaplab_unit_settings.py] is not among the
    sources): the attributes that [process_image_unit] reads.  [faces_index]
    holds positions of [enumerate], hence naturals. *)
Record FaceSwapUnitSettings : Type := mkUnit {
  enable : bool;
  faces : list Face;
  blended_faces : option Face;
  reference_face : option Face;
  faces_index : gset nat;
  same_gender : bool;
  blend_faces_flag : bool;
  sort_by_size : bool;
  check_similarity : bool;
  compute_similarity : bool;
  min_sim : Qc;
  min_ref_sim : Qc
}.

Definition enumerate {A} (l : list A) : list (nat * A) := imap pair l.

(** [dict.values()] *)
Definition values (d : gmap nat Qc) : list Qc := (map_to_list d).*2.

Section Pipeline.

(** PIL images, and the BGR arrays OpenCV works on. *)
Variables image array : Type.

(** [cv2.cvtColor(np.array(img), cv2.COLOR_RGB2BGR)] *)
Variable pil_to_bgr : image -> array.
(** [Image.fromarray(cv2.cvtColor(result, cv2.COLOR_BGR2RGB))] *)
Variable bgr_to_pil : array -> image.

Variable detect : array -> Z * Z -> Qc -> list Face.
Variable opt_detection_threshold : option Qc.
Variable cosine_similarity : list float32 -> list float32 -> exc Qc.

(** [getFaceSwapModel(model_path)] and [UpscaledINSwapper.get]. *)
Variable swapper : Type.
Variable getFaceSwapModel : string -> exc swapper.
Variable swapper_get : swapper -> array -> Face -> Face -> bool -> exc array.

Variable check_against_nsfw : image -> bool.

(** [f"{info}, similarity = {...}, ref_similarity = {...}"] *)
Variable format_info :
  option string -> gmap nat Qc -> gmap nat Qc -> string.

Definition locate (img : array) (sort_by_face_size : bool) : list Face :=
  get_faces array detect opt_detection_threshold img (640, 640) None
    sort_by_face_size.

(** [[x for x in faces if x["gender"] == gender]] when [same_gender]. *)
Definition gender_filter (same_gender : bool) (g : Z) (l : list Face) :
    list Face :=
  if same_gender then List.filter (fun x => bool_decide (gender x = g)) l
  else l.

Definition swap_face (reference_face source_face : option Face)
    (target_img : image) (model : string) (faces_index : gset nat)
    (same_gender upscaled_swapper compute_similarity sort_by_face_size : bool)
    : exc (ImageResult image) :=
  let target := pil_to_bgr target_img in
  match source_face with
  | None => Raise TypeError
  | Some src =>
      let gender := gender src in
      face_swapper <-! getFaceSwapModel model;
      let target_faces :=
        gender_filter same_gender gender (locate target sort_by_face_size) in
      result <-! exc_fold
        (fun result '(i, swapped_face) =>
           if bool_decide (i ∈ faces_index)
           then swapper_get face_swapper result swapped_face src
                  upscaled_swapper
           else Ok result)
        (enumerate target_faces) target;
      let result_image := bgr_to_pil result in
      if compute_similarity then
        let result_faces :=
          gender_filter same_gender gender
            (locate (pil_to_bgr result_image) sort_by_face_size) in
        sims <-! exc_fold
          (fun (sims : gmap nat Qc * gmap nat Qc) '(i, swapped_face) =>
             if bool_decide (i ∈ faces_index)
                && (i <? length target_faces)%nat
             then
               s <-! cosine_similarity_face cosine_similarity src
                       swapped_face;
               r <-! match reference_face with
                     | Some ref =>
                         cosine_similarity_face cosine_similarity ref
                           swapped_face
                     | None => Raise AttributeError
                     end;
               Ok (<[i := s]> sims.1, <[i := r]> sims.2)
             else Ok sims)
          (enumerate result_faces) (∅, ∅);
        Ok (mkImageResult result_image sims.1 sims.2)
      else Ok (mkImageResult result_image ∅ ∅)
  end.

(** [all([d.values() != 0] + [x >= bound for x in d.values()])]: a
    [dict_values] object never equals [0], so the first entry is [True]. *)
Definition all_at_least (bound : Qc) (d : gmap nat Qc) : bool :=
  forallb id (true :: ((fun x => bool_decide (bound <= x)%Qc) <$> values d)).

(** The test of lines 506-517; an empty [dict] is falsy. *)
Definition accepted (unit : FaceSwapUnitSettings)
    (result : ImageResult image) : bool :=
  negb (check_similarity unit)
  || (bool_decide (similarity result ≠ ∅)
      && all_at_least (min_sim unit) (similarity result)
      && all_at_least (min_ref_sim unit) (ref_similarity result)).

(** The choice of [src_faces], lines 468-480. *)
Definition source_faces (unit : FaceSwapUnitSettings) (force_blend : bool)
    : exc (list (option Face)) :=
  if negb (blend_faces_flag unit) && negb force_blend
  then Ok (Some <$> faces unit)
  else if (1 <? length (faces unit))%nat then
    match reference_face unit, blended_faces unit with
    | Some ref, Some blended =>
        if array_equal (embedding ref) (embedding blended)
        then Raise AssertionError
        else Ok [blended_faces unit]
    | _, _ => Raise AttributeError
    end
  else Ok [blended_faces unit].

Definition process_image_unit (model : string) (unit : FaceSwapUnitSettings)
    (img : image) (info : option string)
    (upscaled_swapper force_blend : bool)
    : exc (list (image * option string)) :=
  if enable unit then
    if check_against_nsfw img then Ok [(img, info)]
    else
      src_faces <-! source_faces unit force_blend;
      exc_fold
        (fun results src_face =>
           let reference_face :=
             match reference_face unit with
             | Some ref => Some ref
             | None => src_face
             end in
           result <-! swap_face reference_face src_face img model
                        (faces_index unit) (same_gender unit)
                        upscaled_swapper (compute_similarity unit)
                        (sort_by_size unit);
           if accepted unit result
           then Ok (results ++
                    [(result_image result,
                      Some (format_info info (similarity result)
                              (ref_similarity result)))])
           else Ok results)
        src_faces []
  else Ok [].

(** [if nexts:] holds for a list that is neither [None] nor empty. *)
Definition truthy {A} (l : option (list A)) : bool :=
  match l with
  | Some (_ :: _) => true
  | _ => false
  end.

Fixpoint process_images_units (model : string)
    (units : list FaceSwapUnitSettings)
    (images : list (image * option string))
    (upscaled_swapper force_blend : bool)
    : exc (option (list (image * option string))) :=
  match units with
  | [] => Ok None
  | unit0 :: units' =>
      processed_images <-! exc_fold
        (fun processed_images '(img, info) =>
           swapped <-! process_image_unit model unit0 img info
                         upscaled_swapper force_blend;
           nexts <-! process_images_units model units' swapped
                       upscaled_swapper force_blend;
           if truthy nexts
           then Ok (processed_images ++ default [] nexts)
           else Ok (processed_images ++ swapped))
        images [];
      Ok (Some processed_images)
  end.

End Pipeline.

(** *** Helpers and the batch driver *)

(** The drivers below can also fail with [IndexError], next to the
    exceptions of the pipeline. *)
Inductive failure : Type :=
| IndexError
| Raised (e : exn).

Inductive outcome (A : Type) : Type :=
| Return (a : A)
| Fail (f : failure).
Arguments Return {A} a.
Arguments Fail {A} f.

Definition outcome_bind {A B} (m : outcome A) (k : A -> outcome B)
    : outcome B :=
  match m with
  | Return a => k a
  | Fail f => Fail f
  end.

Notation "x <-? m ; k" := (outcome_bind m (fun x => k))
  (at level 100, m at next level, right associativity).

Definition of_exc {A} (m : exc A) : outcome A :=
  match m with
  | Ok a => Return a
  | Raise e => Fail (Raised e)
  end.

(** [l[index]]: a negative index counts from the end. *)
Definition getitem {A} (l : list A) (index : Z) : outcome A :=
  let n := Z.of_nat (length l) in
  let i := if index <? 0 then index + n else index in
  if (0 <=? i) && (i <? n) then
    match l !! Z.to_nat i with
    | Some x => Return x
    | None => Fail IndexError
    end
  else Fail IndexError.

(** [l[index] if index < len(l) else default] *)
Definition get_or_default {A} (l : list A) (index : Z) (default : A)
    : outcome A :=
  if index <? Z.of_nat (length l) then getitem l index else Return default.

Section Drivers.

Variables image array file : Type.

(** [imgutils.pil_to_cv2] and [Image.open(file.name)]. *)
Variable pil_to_cv2 : image -> array.
Variable Image_open : file -> exc image.

Variable detect : array -> Z * Z -> Qc -> list Face.
Variable opt_detection_threshold : option Qc.
Variable cosine_similarity : list float32 -> list float32 -> exc Qc.

(** [get_or_default(get_faces(pil_to_cv2(img)), 0, None)] *)
Definition first_face (img : image) : outcome (option Face) :=
  get_or_default
    (Some <$> get_faces array detect opt_detection_threshold (pil_to_cv2 img)
                (640, 640) None false)
    0 None.

Definition compare_faces (img1 img2 : image) : outcome Qc :=
  face1 <-? first_face img1;
  face2 <-? first_face img2;
  match face1, face2 with
  | Some face1, Some face2 =>
      of_exc (cosine_similarity_face cosine_similarity face1 face2)
  | _, _ => Return (- 1)%Qc
  end.

(** [for x in xs: acc = body(acc, x)] for the drivers. *)
Fixpoint outcome_fold {A S} (body : S -> A -> outcome S) (xs : list A) (s : S)
    : outcome S :=
  match xs with
  | [] => Return s
  | x :: xs' => s' <-? body s x; outcome_fold body xs' s'
  end.

Definition get_faces_from_img_files (files : list file)
    : outcome (list Face) :=
  if (0 <? length files)%nat then
    outcome_fold
      (fun faces file =>
         img <-? of_exc (Image_open file);
         face <-? first_face img;
         match face with
         | Some face => Return (faces ++ [face])
         | None => Return faces
         end)
      files []
  else Return [].

End Drivers.

Section Batch.

Variables image array : Type.
Variable pil_to_bgr : image -> array.
Variable bgr_to_pil : array -> image.
Variable detect : array -> Z * Z -> Qc -> list Face.
Variable opt_detection_threshold : option Qc.
Variable cosine_similarity : list float32 -> list float32 -> exc Qc.
Variable swapper : Type.
Variable getFaceSwapModel : string -> exc swapper.
Variable swapper_get : swapper -> array -> Face -> Face -> bool -> exc array.
Variable check_against_nsfw : image -> bool.
Variable format_info : option string -> gmap nat Qc -> gmap nat Qc -> string.

(** [get_current_model()] and
    [opts.data.get("faceswaplab_upscaled_swapper", False)] *)
Variable current_model : string.
Variable opt_upscaled_swapper : option bool.

(** [os.makedirs(save_path, exist_ok=True)], [enhance_image] and
    [img.save(path)] on a fresh temporary name of the directory. *)
Variable postprocessing_options : Type.
Variable makedirs : string -> exc unit.
Variable enhance_image : image -> postprocessing_options -> exc image.
Variable img_save : string -> image -> exc unit.

(** [if save_path:] holds for a path that is neither [None] nor empty. *)
Definition path_given (save_path : option string) : option string :=
  match save_path with
  | Some path => if bool_decide (path = "") then None else Some path
  | None => None
  end.

(** [for i, img in enumerate(current_images): current_images[i] = f(img)] *)
Fixpoint exc_map {A B} (f : A -> exc B) (l : list A) : exc (list B) :=
  match l with
  | [] => Ok []
  | x :: l' => y <-! f x; ys <-! exc_map f l'; Ok (y :: ys)
  end.

(** The files written so far are the state of the driver: it is kept when
    an exception ends the run. *)
Fixpoint save_images (path : string) (imgs : list image) (saved : list image)
    : exc unit * list image :=
  match imgs with
  | [] => (Ok tt, saved)
  | img :: imgs' =>
      match img_save path img with
      | Ok _ => save_images path imgs' (saved ++ [img])
      | Raise e => (Raise e, saved)
      end
  end.

(** The loop of lines 101-125 over the source images. *)
Fixpoint batch_loop (units : list FaceSwapUnitSettings)
    (save_path : option string) (options : postprocessing_options)
    (src_images : list image) (result_images saved : list image)
    : exc (list image) * list image :=
  match src_images with
  | [] => (Ok result_images, saved)
  | src_image :: src_images' =>
      match process_images_units image array pil_to_bgr bgr_to_pil detect
              opt_detection_threshold cosine_similarity swapper
              getFaceSwapModel swapper_get check_against_nsfw format_info
              current_model units [(src_image, None)]
              (default false opt_upscaled_swapper) false with
      | Raise e => (Raise e, saved)
      | Ok None => (Raise TypeError, saved)
      | Ok (Some swapped_images) =>
          let current_images :=
            if (0 <? length swapped_images)%nat then swapped_images.*1
            else [] in
          match exc_map (fun img => enhance_image img options)
                  current_images with
          | Raise e => (Raise e, saved)
          | Ok current_images =>
              match path_given save_path with
              | Some path =>
                  match save_images path current_images saved with
                  | (Ok _, saved') =>
                      batch_loop units save_path options src_images'
                        (result_images ++ current_images) saved'
                  | (Raise e, saved') => (Raise e, saved')
                  end
              | None =>
                  batch_loop units save_path options src_images'
                    (result_images ++ current_images) saved
              end
          end
      end
  end.

(** [batch_process]: the result, and the files written, starting from
    [saved]; an exception anywhere makes the result [None]. *)
Definition batch_process (src_images : option (list image))
    (save_path : option string) (units : list FaceSwapUnitSettings)
    (options : postprocessing_options) (saved : list image)
    : option (list image) * list image :=
  let made :=
    match path_given save_path with
    | Some path => makedirs path
    | None => Ok tt
    end in
  match made with
  | Raise _ => (None, saved)
  | Ok _ =>
      let units := List.filter enable units in
      match src_images with
      | Some src_images =>
          if (0 <? length units)%nat then
            match batch_loop units save_path options src_images [] saved with
            | (Ok result_images, saved') => (Some result_images, saved')
            | (Raise _, saved') => (None, saved')
            end
          else (None, saved)
      | None => (None, saved)
      end
  end.

End Batch.

End Swapper.

(** ** The paste-back step of [UpscaledINSwapper.get] *)

Module UpscaledInswapper.

Import Np.

(** A BGR pixel of a [uint8] image. *)
Definition pixel : Type := Z * Z * Z.

(** One channel of
    [img_mask * bgr_fake + (1 - img_mask) * target_img.astype(np.float32)]
    followed by [.astype(np.uint8)]. *)
Definition blend_channel (m : float32) (fake target : Z) : Z :=
  to_uint8 (add32 (mul32 m (f32 fake)) (mul32 (sub32 (f32 1) m) (f32 target))).

(** [img_mask] has shape (H, W, 1): one weight for the three channels. *)
Definition blend_pixel (m : float32) (fake target : pixel) : pixel :=
  let '(b, g, r) := fake in
  let '(b', g', r') := target in
  (blend_channel m b b', blend_channel m g g', blend_channel m r r').

Definition same_shape {A B} (a : array2 A) (b : array2 B) : bool :=
  bool_decide (length <$> a = length <$> b).

(** Lines 181-183; arrays that do not line up make NumPy raise. *)
Definition merge (img_mask : array2 float32) (bgr_fake target_img : array2 pixel)
    : exc (array2 pixel) :=
  if same_shape img_mask bgr_fake && same_shape img_mask target_img then
    Ok (zip_with
          (fun mask_row rows =>
             zip_with (fun m px => blend_pixel m px.1 px.2) mask_row
               (zip rows.1 rows.2))
          img_mask (zip bgr_fake target_img))
  else Raise ValueError.

Section PasteBack.

(** The 2x3 matrix of an affine map. *)
Variable affine : Type.
Variable invertAffineTransform : affine -> affine.

(** [cv2.warpAffine(src, IM, dsize, borderValue=0.0)] on a [uint8] image
    and on a [float32] mask; [dsize] is (width, height). *)
Variable warpAffine_u8 : array2 pixel -> affine -> nat * nat -> array2 pixel.
Variable warpAffine_f32 :
  array2 float32 -> affine -> nat * nat -> array2 float32.

(** [cv2.erode] and [cv2.dilate] with the kernel [np.ones((k, k))], one
    iteration, and [cv2.GaussianBlur(mask, blur_size, 0)] for a kernel size
    that OpenCV accepts. *)
Variable erode dilate : array2 float32 -> nat -> array2 float32.
Variable GaussianBlur : array2 float32 -> Z * Z -> array2 float32.

(** [cv2.GaussianBlur] asserts that both sides of the kernel size are
    positive and odd, and raises [cv2.error] otherwise. *)
Definition gaussian_blur (src : array2 float32) (ksize : Z * Z)
    : exc (array2 float32) :=
  if (0 <? ksize.1) && Z.odd ksize.1 && (0 <? ksize.2) && Z.odd ksize.2
  then Ok (GaussianBlur src ksize)
  else Raise Cv2Error.

(** [opts.data.get('faceswaplab_upscaled_swapper_fthresh', 10)] and
    [opts.data.get('faceswaplab_upscaled_swapper_erosion', 1)] *)
Variable opt_fthresh : option Z.
Variable opt_erosion : option pynum.

(** [np.ones((k, k), np.uint8)] raises for a negative [k]. *)
Definition ones_kernel (k : Z) : exc nat :=
  if k <? 0 then Raise ValueError else Ok (Z.to_nat k).

(** [tuple(2*i+1 for i in (k, k))] *)
Definition blur_size (k : Z) : Z * Z := (2 * k + 1, 2 * k + 1).

(** The presence mask, lines 147-178: warped, thresholded, eroded,
    blurred and divided by 255. *)
Definition presence_mask (target_img : array2 pixel)
    (aimg_shape : nat * nat) (M : affine) : exc (array2 float32) :=
  let IM := invertAffineTransform M in
  let dsize := (width target_img, height target_img) in
  let img_white := full aimg_shape (f32 255) in
  let img_white := warpAffine_f32 img_white IM dsize in
  let img_white :=
    map2 (fun v => if SFltb (f32 20) v then f32 255 else v) img_white in
  let img_mask := img_white in
  let '(mask_h_inds, mask_w_inds) := where_eq img_mask (f32 255) in
  mask_h <-! extent mask_h_inds;
  mask_w <-! extent mask_w_inds;
  mask_size <-! py_int (PyFloat (sqrt64 (f64 (mask_h * mask_w))));
  let erosion_factor := default (PyInt 1) opt_erosion in
  k1a <-! py_int (py_mul (mask_size / 10) erosion_factor);
  k1b <-! py_int (py_mul 10 erosion_factor);
  kernel <-! ones_kernel (Z.max k1a k1b);
  let img_mask := erode img_mask kernel in
  k2a <-! py_int (py_mul (mask_size / 20) erosion_factor);
  k2b <-! py_int (py_mul 5 erosion_factor);
  img_mask <-! gaussian_blur img_mask (blur_size (Z.max k2a k2b));
  Ok (map2 (fun v => div32 v (f32 255)) img_mask).

(** The difference mask, lines 150-179: warped, thresholded at
    [fthresh], dilated, blurred and divided by 255. *)
Definition difference_mask (target_img : array2 pixel)
    (fake_diff : array2 float32) (M : affine) : exc (array2 float32) :=
  let IM := invertAffineTransform M in
  let dsize := (width target_img, height target_img) in
  let fake_diff := warpAffine_f32 fake_diff IM dsize in
  let fthresh := f32 (default 10 opt_fthresh) in
  let fake_diff :=
    map2 (fun v => if SFltb v fthresh then f32 0 else v) fake_diff in
  let fake_diff :=
    map2 (fun v => if SFleb fthresh v then f32 255 else v) fake_diff in
  let fake_diff := dilate fake_diff 2 in
  let erosion_factor := default (PyInt 1) opt_erosion in
  k <-! py_int (py_mul 5 erosion_factor);
  fake_diff <-! gaussian_blur fake_diff (blur_size k);
  Ok (map2 (fun v => div32 v (f32 255)) fake_diff).

(** Lines 145-184 of [get]: [bgr_fake] is the generated patch (after the
    optional upscaling), [aimg_shape] the shape of the aligned crop,
    [fake_diff] the output of [compute_diff]. *)
Definition paste_back (target_img bgr_fake : array2 pixel)
    (aimg_shape : nat * nat) (fake_diff : array2 float32) (M : affine)
    : exc (array2 pixel) :=
  let IM := invertAffineTransform M in
  let dsize := (width target_img, height target_img) in
  let bgr_fake := warpAffine_u8 bgr_fake IM dsize in
  img_mask <-! presence_mask target_img aimg_shape M;
  fake_diff <-! difference_mask target_img fake_diff M;
  merge img_mask bgr_fake target_img.

End PasteBack.

(** *** The helpers of the upscale branch *)

(** [cv2.bitwise_and(src, src, mask=mask)] on one pixel: the pixel where
    the mask is not zero, and black elsewhere. *)
Definition bitwise_and_masked (src1 src2 : pixel) (m : Z) : pixel :=
  if m =? 0 then (0, 0, 0)
  else (Z.land src1.1.1 src2.1.1, Z.land src1.1.2 src2.1.2,
        Z.land src1.2 src2.2).

(** [cv2.bitwise_not] on a [uint8]. *)
Definition bitwise_not (m : Z) : Z := Z.lxor m 255.

(** [cv2.add] on two [uint8] pixels: the sum, saturated at 255. *)
Definition saturate_add (a b : pixel) : pixel :=
  (Z.min 255 (a.1.1 + b.1.1), Z.min 255 (a.1.2 + b.1.2),
   Z.min 255 (a.2 + b.2)).

(** One pixel of [merge_images_with_mask], lines 32-36; [m] is the mask
    entry before [astype(np.uint8)]. *)
Definition merge_pixel_with_mask (px1 px2 : pixel) (m : Z) : pixel :=
  let mask := m mod 256 in
  let masked_region := bitwise_and_masked px2 px2 mask in
  let inverse_mask := bitwise_not mask in
  let empty_region := bitwise_and_masked px1 px1 inverse_mask in
  saturate_add empty_region masked_region.

Definition merge_images_with_mask (image1 image2 : array2 pixel)
    (mask : array2 Z) : exc (array2 pixel) :=
  if negb (same_shape image1 image2) || negb (same_shape image1 mask)
  then Raise ValueError
  else
    Ok (zip_with
          (fun (rows : list pixel * list pixel) (mask_row : list Z) =>
             zip_with (fun (px : pixel * pixel) m =>
                         merge_pixel_with_mask px.1 px.2 m)
               (zip rows.1 rows.2) mask_row)
          (zip image1 image2) mask).

(** One entry of [np.abs(bgr_fake - aimg).mean(axis=2)] in [float32]; the
    three terms are whole numbers below 256, so their sum is exact in any
    order. *)
Definition abs_diff_mean (fake crop : pixel) : float32 :=
  let d (c c' : Z) := SFabs (sub32 (f32 c) (f32 c')) in
  div32
    (add32 (add32 (d fake.1.1 crop.1.1) (d fake.1.2 crop.1.2))
       (d fake.2 crop.2))
    (f32 3).

(** The rows and columns that lines 103-106 set to zero: the first two and
    the last two. *)
Definition on_border (h w i j : nat) : bool :=
  (i <? 2)%nat || (h - 2 <=? i)%nat || (j <? 2)%nat || (w - 2 <=? j)%nat.

(** [compute_diff], lines 100-107, on a patch and a crop of one shape, as
    [get] calls it; for other shapes the subtraction of line 101 raises (the
    broadcasting of a single row or column is left out). *)
Definition compute_diff (bgr_fake aimg : array2 pixel) : exc (array2 float32) :=
  if same_shape bgr_fake aimg then
    Ok (imap
          (fun i (rows : list pixel * list pixel) =>
             imap (fun j (px : pixel * pixel) =>
                     if on_border (height bgr_fake) (width bgr_fake) i j
                     then f32 0
                     else abs_diff_mean px.1 px.2)
               (zip rows.1 rows.2))
          (zip bgr_fake aimg))
  else Raise ValueError.

Section Upscaler.

(** [UpscalerData] with its [name], and [shared.sd_upscalers]. *)
Variable UpscalerData : Type.
Variable name : UpscalerData -> string.

(** The entry of [opts.data] under
    ["faceswaplab_upscaled_swapper_upscaler"]: absent, or a value that may
    be [None]. *)
Variable opt_upscaler : option (option string).

(** [opts.data.get("faceswaplab_upscaled_swapper_upscaler", "LDSR")] *)
Definition wanted_upscaler : option string :=
  match opt_upscaler with
  | None => Some "LDSR"
  | Some value => value
  end.

Fixpoint get_upscaler (sd_upscalers : list UpscalerData)
    : option UpscalerData :=
  match sd_upscalers with
  | [] => None
  | upscaler :: rest =>
      if bool_decide (Some (name upscaler) = wanted_upscaler)
      then Some upscaler
      else get_upscaler rest
  end.

End Upscaler.

End UpscaledInswapper.

(** * Properties *)

(** ** The face locator *)

Section LocatorFacts.

Context (image : Type) (detect : image -> Z * Z -> Qc -> list Swapper.Face)
  (opt_detection_threshold : option Qc).

Local Abbreviation get_faces :=
  (Swapper.get_faces image detect opt_detection_threshold).
Local Abbreviation resolve_thresh :=
  (Swapper.resolve_thresh opt_detection_threshold).

(** The body of [get_faces], as one equation. *)
Lemma get_faces_eq img_data det_size det_thresh sort_by_face_size :
  get_faces img_data det_size det_thresh sort_by_face_size =
  let face := detect img_data det_size (resolve_thresh det_thresh) in
  if Swapper.must_retry face det_size then
    get_faces img_data (fst det_size / 2, snd det_size / 2)
      (Some (resolve_thresh det_thresh)) false
  else if sort_by_face_size
       then Swapper.sorted_or_empty Swapper.bbox_area true face
       else Swapper.sorted_or_empty Swapper.bbox_left false face.
Proof.
  funelim (get_faces img_data det_size det_thresh sort_by_face_size);
    cbv zeta; rewrite e; reflexivity.
Qed.

(** No retry happens once a dimension is at most 320. *)
Lemma must_retry_floor face w h :
  w <= 320 \/ h <= 320 -> Swapper.must_retry face (w, h) = false.
Proof.
  intros Hfloor. unfold Swapper.must_retry. simpl.
  destruct (length face =? 0)%nat; simpl; [|reflexivity].
  destruct Hfloor as [Hw | Hh].
  - replace (320 <? w) with false by (symmetry; apply Z.ltb_ge; lia).
    reflexivity.
  - replace (320 <? h) with false by (symmetry; apply Z.ltb_ge; lia).
    apply andb_false_r.
Qed.

(** A retry forgets [sort_by_face_size]: the recursive call of line 228
    does not pass it on. *)
Lemma get_faces_retry_ignores_sort img_data det_size det_thresh :
  Swapper.must_retry
    (detect img_data det_size (resolve_thresh det_thresh)) det_size = true ->
  get_faces img_data det_size det_thresh true =
  get_faces img_data det_size det_thresh false.
Proof.
  intros Hretry.
  transitivity
    (get_faces img_data (fst det_size / 2, snd det_size / 2)
       (Some (resolve_thresh det_thresh)) false);
    [|symmetry]; (etransitivity; [apply get_faces_eq|]);
    cbv zeta; rewrite Hretry; reflexivity.
Qed.

(** C2 (amended).  When the detector finds nothing at [(w, h)]:
    [get_faces] retries at the halved size if both dimensions exceed 320,
    and returns the empty list otherwise.  A call at 640x640 therefore
    makes the single step 640 -> 320 and returns what the detector finds
    at 320x320, ordered by position; 160x160 is never tried. *)
Theorem get_faces_backoff_floor img w h det_thresh sort_by_face_size :
  detect img (w, h) (resolve_thresh det_thresh) = [] ->
  (if (320 <? w) && (320 <? h)
   then get_faces img (w, h) det_thresh sort_by_face_size =
        get_faces img (w / 2, h / 2) (Some (resolve_thresh det_thresh)) false
   else get_faces img (w, h) det_thresh sort_by_face_size = [])
  /\ (w = 640 -> h = 640 ->
      get_faces img (w, h) det_thresh sort_by_face_size =
      Swapper.sorted_or_empty Swapper.bbox_left false
        (detect img (320, 320) (resolve_thresh det_thresh))).
Proof.
  intros Hnone.
  assert (Hstep : get_faces img (w, h) det_thresh sort_by_face_size =
                  if (320 <? w) && (320 <? h)
                  then get_faces img (w / 2, h / 2)
                         (Some (resolve_thresh det_thresh)) false
                  else []).
  { rewrite get_faces_eq. cbv zeta. unfold Swapper.must_retry.
    rewrite Hnone. simpl.
    destruct ((320 <? w) && (320 <? h)); [reflexivity|].
    destruct sort_by_face_size; reflexivity. }
  split.
  - destruct ((320 <? w) && (320 <? h)); exact Hstep.
  - intros -> ->. rewrite Hstep.
    change ((320 <? 640) && (320 <? 640)) with true.
    change (640 / 2) with 320. cbv iota.
    rewrite get_faces_eq. cbv zeta.
    rewrite must_retry_floor by lia. reflexivity.
Qed.

End LocatorFacts.

(** A detector stub that finds one face, and only at 160x160 or below. *)
Definition stub_face : Swapper.Face :=
  Swapper.mkFace (Some (Np.f32 10, Np.f32 10, Np.f32 40, Np.f32 50)) None [] 0 30.

Definition detect_le160 (_ : unit) (det_size : Z * Z) (_ : Qc)
    : list Swapper.Face :=
  if (det_size.1 <=? 160) && (det_size.2 <=? 160) then [stub_face] else [].

Lemma get_faces_backoff_floor_witness :
  Swapper.get_faces unit detect_le160 None tt (640, 640) None false =
  Swapper.get_faces unit detect_le160 None tt (320, 320)
    (Some (Q2Qc (1 # 2))) false.
Proof.
  exact (proj1 (get_faces_backoff_floor unit detect_le160 None tt 640 640
                  None false eq_refl)).
Defined.

(** C2 (counterexample).  With a detector that finds a face at 160x160 and
    nothing above, the call at 640x640 stops at 320x320 and comes back
    empty. *)
Lemma get_faces_640_never_reaches_160 :
  detect_le160 tt (160, 160) (Q2Qc (1 # 2)) <> []
  /\ Swapper.get_faces unit detect_le160 None tt (640, 640) None false = [].
Proof. split; [discriminate | vm_compute; reflexivity]. Qed.

(** *** The order of floats *)

Section FloatOrder.

Definition is_nan (x : spec_float) : bool :=
  match x with
  | S754_nan => true
  | _ => false
  end.

(** A float that is a number, as a point of a lexicographic order: its
    class, then its exponent and its mantissa (negated below zero). *)
Definition rank (x : spec_float) : Z * Z * Z :=
  match x with
  | S754_nan => (0, 0, 0)
  | S754_zero _ => (0, 0, 0)
  | S754_infinity s => (if s then -2 else 2, 0, 0)
  | S754_finite s m e => if s then (-1, - e, - Z.pos m) else (1, e, Z.pos m)
  end.

Definition lex_compare (a b : Z * Z * Z) : comparison :=
  match a.1.1 ?= b.1.1 with
  | Eq => match a.1.2 ?= b.1.2 with
          | Eq => a.2 ?= b.2
          | c => c
          end
  | c => c
  end.

Lemma SFcompare_rank x y :
  is_nan x = false -> is_nan y = false ->
  SFcompare x y = Some (lex_compare (rank x) (rank y)).
Proof.
  destruct x as [s|s| |s m e], y as [s'|s'| |s' m' e']; try discriminate;
    intros _ _; try (by destruct s); try (by destruct s');
    try (by destruct s, s').
  destruct s, s'; try reflexivity; simpl; unfold lex_compare; simpl;
    change (Pos.compare_cont Eq m m') with (Pos.compare m m').
  rewrite Z.compare_opp, (Z.compare_antisym e e').
  destruct (e ?= e'); reflexivity.
Qed.

Lemma SFcompare_nan x y :
  is_nan x = true \/ is_nan y = true -> SFcompare x y = None.
Proof.
  destruct x as [s|s| |s m e], y as [s'|s'| |s' m' e']; simpl;
    intros [H|H]; try discriminate; reflexivity.
Qed.

Lemma lex_compare_lt a b :
  lex_compare a b = Lt <->
  a.1.1 < b.1.1
  \/ (a.1.1 = b.1.1 /\ (a.1.2 < b.1.2 \/ (a.1.2 = b.1.2 /\ a.2 < b.2))).
Proof.
  unfold lex_compare.
  destruct (Z.compare_spec a.1.1 b.1.1), (Z.compare_spec a.1.2 b.1.2),
    (Z.compare_spec a.2 b.2); split; try discriminate; try reflexivity; lia.
Qed.

Lemma lex_compare_gt a b :
  lex_compare a b = Gt <-> lex_compare b a = Lt.
Proof.
  rewrite lex_compare_lt. unfold lex_compare.
  destruct (Z.compare_spec a.1.1 b.1.1), (Z.compare_spec a.1.2 b.1.2),
    (Z.compare_spec a.2 b.2); split; try discriminate; try reflexivity; lia.
Qed.

Lemma lex_compare_eq a b : lex_compare a b = Eq <-> a = b.
Proof.
  destruct a as [[a1 a2] a3], b as [[b1 b2] b3]. unfold lex_compare. simpl.
  destruct (Z.compare_spec a1 b1), (Z.compare_spec a2 b2),
    (Z.compare_spec a3 b3); split; intros Heq; try discriminate;
    try reflexivity; try congruence; injection Heq; intros; lia.
Qed.

(** [<] implies [<=]. *)
Lemma SFltb_leb x y : SFltb x y = true -> SFleb x y = true.
Proof. unfold SFltb, SFleb. by destruct (SFcompare x y) as [[]|]. Qed.

(** On numbers the order is total. *)
Lemma SFleb_total x y :
  is_nan x = false -> is_nan y = false ->
  SFltb y x = false -> SFleb x y = true.
Proof.
  intros Hx Hy. unfold SFltb, SFleb.
  rewrite (SFcompare_rank x y Hx Hy), (SFcompare_rank y x Hy Hx).
  destruct (lex_compare (rank x) (rank y)) eqn:Hxy; try reflexivity.
  apply lex_compare_gt in Hxy. by rewrite Hxy.
Qed.

Lemma SFleb_numbers x y :
  SFleb x y = true -> is_nan x = false /\ is_nan y = false.
Proof.
  unfold SFleb. destruct (is_nan x) eqn:Hx.
  { rewrite SFcompare_nan by auto. discriminate. }
  destruct (is_nan y) eqn:Hy.
  { rewrite SFcompare_nan by auto. discriminate. }
  done.
Qed.

Lemma SFleb_trans x y z :
  SFleb x y = true -> SFleb y z = true -> SFleb x z = true.
Proof.
  intros Hxy Hyz.
  destruct (SFleb_numbers x y Hxy) as [Hx Hy].
  destruct (SFleb_numbers y z Hyz) as [_ Hz].
  unfold SFleb in *.
  rewrite (SFcompare_rank x y Hx Hy) in Hxy.
  rewrite (SFcompare_rank y z Hy Hz) in Hyz.
  rewrite (SFcompare_rank x z Hx Hz).
  destruct (lex_compare (rank x) (rank z)) eqn:Hxz; try reflexivity.
  exfalso. apply lex_compare_gt, lex_compare_lt in Hxz.
  destruct (lex_compare (rank x) (rank y)) eqn:H1; try discriminate;
    destruct (lex_compare (rank y) (rank z)) eqn:H2; try discriminate;
    try apply lex_compare_eq in H1; try apply lex_compare_eq in H2;
    try apply lex_compare_lt in H1; try apply lex_compare_lt in H2;
    try rewrite H1 in *; try rewrite <- H2 in *; lia.
Qed.

(** Two floats equal to a third are not in strict order. *)
Lemma SFltb_not_equal x y k :
  SFltb x y = true -> SFeqb x k = true -> SFeqb y k = false.
Proof.
  unfold SFltb, SFeqb. intros Hlt Hxk.
  destruct (is_nan x) eqn:Hx.
  { rewrite SFcompare_nan in Hlt by auto. discriminate. }
  destruct (is_nan y) eqn:Hy.
  { rewrite SFcompare_nan in Hlt by auto. discriminate. }
  destruct (is_nan k) eqn:Hk.
  { rewrite SFcompare_nan in Hxk by auto. discriminate. }
  rewrite (SFcompare_rank x y Hx Hy) in Hlt.
  rewrite (SFcompare_rank x k Hx Hk) in Hxk.
  rewrite (SFcompare_rank y k Hy Hk).
  destruct (lex_compare (rank y) (rank k)) eqn:Hyk; try reflexivity.
  exfalso. apply lex_compare_eq in Hyk.
  destruct (lex_compare (rank x) (rank k)) eqn:H1; try discriminate.
  apply lex_compare_eq in H1.
  destruct (lex_compare (rank x) (rank y)) eqn:H2; try discriminate.
  apply lex_compare_lt in H2. rewrite H1, Hyk in H2. lia.
Qed.

End FloatOrder.

(** *** Orderings *)

Section Sorting.

Context {A : Type} (key : A -> Np.float32).

(** Lists whose keys are numbers. *)
Definition numeric : list A -> Prop :=
  Forall (fun a => is_nan (key a) = false).

Definition ascending : list A -> Prop :=
  StronglySorted (fun a b => SFleb (key a) (key b) = true).
Definition descending : list A -> Prop :=
  StronglySorted (fun a b => SFleb (key b) (key a) = true).

(** The elements whose key equals [k], in their order. *)
Definition with_key (k : Np.float32) (l : list A) : list A :=
  List.filter (fun a => SFeqb (key a) k) l.

Lemma insert_by_perm x l : Swapper.insert_by key x l ≡ₚ x :: l.
Proof.
  induction l as [|y l IH]; simpl; [reflexivity|].
  destruct (SFltb (key y) (key x)); [|reflexivity].
  rewrite IH. apply perm_swap.
Qed.

Lemma insert_by_ascending x l :
  is_nan (key x) = false -> numeric l ->
  ascending l -> ascending (Swapper.insert_by key x l).
Proof.
  unfold ascending, numeric. intros Hx.
  induction l as [|y l IH]; simpl; intros Hnum Hl.
  - repeat constructor.
  - apply StronglySorted_inv in Hl as [Hl Hy].
    apply Forall_cons in Hnum as [Hny Hnum].
    destruct (SFltb (key y) (key x)) eqn:Hlt.
    + constructor; [auto|].
      rewrite insert_by_perm. constructor; [|exact Hy].
      by apply SFltb_leb.
    + apply SFleb_total in Hlt; [|assumption..].
      constructor; [constructor; assumption|].
      constructor; [exact Hlt|].
      eapply Forall_impl; [exact Hy|].
      intros z Hz. simpl in Hz. eapply SFleb_trans; eassumption.
Qed.

Lemma sort_by_perm l : Swapper.sort_by key l ≡ₚ l.
Proof.
  induction l as [|x l IH]; simpl; [reflexivity|].
  rewrite insert_by_perm. by rewrite IH.
Qed.

Lemma sort_by_ascending l : numeric l -> ascending (Swapper.sort_by key l).
Proof.
  induction 1 as [|x l Hx Hl IH]; simpl; [constructor|].
  apply insert_by_ascending; [exact Hx| |exact IH].
  unfold numeric. by rewrite sort_by_perm.
Qed.

Lemma ascending_rev l : ascending l -> descending (rev l).
Proof.
  unfold ascending, descending. induction 1 as [|x l Hl IH Hx]; simpl.
  - constructor.
  - assert (Hsnoc : forall l',
              StronglySorted (fun a b => SFleb (key b) (key a) = true) l' ->
              Forall (fun a => SFleb (key x) (key a) = true) l' ->
              StronglySorted (fun a b => SFleb (key b) (key a) = true)
                (l' ++ [x])).
    { induction l' as [|y l' IH']; simpl; intros Hs Hall.
      - repeat constructor.
      - apply StronglySorted_inv in Hs as [Hs Hy].
        apply Forall_cons in Hall as [Hxy Hall].
        constructor; [auto|].
        apply Forall_app. split; [exact Hy|]. by constructor. }
    apply Hsnoc; [exact IH|].
    apply Forall_rev. exact Hx.
Qed.

(** [sorted] orders by [key], ascending, or descending with [reverse]. *)
Lemma sorted_perm reverse l : Swapper.sorted key reverse l ≡ₚ l.
Proof.
  unfold Swapper.sorted. destruct reverse.
  - by rewrite <- Permutation_rev, sort_by_perm, <- Permutation_rev.
  - apply sort_by_perm.
Qed.

Lemma sorted_ordered (reverse : bool) l :
  numeric l ->
  if reverse then descending (Swapper.sorted key true l)
  else ascending (Swapper.sorted key false l).
Proof.
  intros Hnum. unfold Swapper.sorted. destruct reverse.
  - apply ascending_rev, sort_by_ascending.
    unfold numeric. by rewrite <- Permutation_rev.
  - by apply sort_by_ascending.
Qed.

(** The sort is stable: elements of one key keep their order. *)
Lemma insert_by_with_key k x l :
  with_key k (Swapper.insert_by key x l) = with_key k (x :: l).
Proof.
  unfold with_key. induction l as [|y l IH]; [reflexivity|].
  cbn [Swapper.insert_by].
  destruct (SFltb (key y) (key x)) eqn:Hlt; [|reflexivity].
  cbn [List.filter] in *. rewrite IH.
  destruct (SFeqb (key y) k) eqn:Hy; [|reflexivity].
  by rewrite (SFltb_not_equal _ _ _ Hlt Hy).
Qed.

Lemma sort_by_with_key k l :
  with_key k (Swapper.sort_by key l) = with_key k l.
Proof.
  induction l as [|x l IH]; [reflexivity|].
  cbn [Swapper.sort_by foldr]. rewrite insert_by_with_key.
  unfold with_key in *. cbn [List.filter].
  change (foldr (Swapper.insert_by key) [] l) with (Swapper.sort_by key l).
  by rewrite IH.
Qed.

Lemma with_key_rev k l : with_key k (rev l) = rev (with_key k l).
Proof.
  unfold with_key. induction l as [|x l IH]; [reflexivity|].
  cbn [rev List.filter]. rewrite List.filter_app, IH. cbn [List.filter].
  destruct (SFeqb (key x) k); [reflexivity|]. by rewrite app_nil_r.
Qed.

Lemma sorted_stable reverse k l :
  with_key k (Swapper.sorted key reverse l) = with_key k l.
Proof.
  unfold Swapper.sorted. destruct reverse.
  - by rewrite with_key_rev, sort_by_with_key, with_key_rev, rev_involutive.
  - apply sort_by_with_key.
Qed.

End Sorting.

Section LocatorOrder.

Context (image : Type) (detect : image -> Z * Z -> Qc -> list Swapper.Face)
  (opt_detection_threshold : option Qc).

Local Abbreviation get_faces :=
  (Swapper.get_faces image detect opt_detection_threshold).

(** The sort keys of line 235 and of line 239, as [float32] numbers. *)
Definition area_key (f : Swapper.Face) : Np.float32 :=
  default (S754_zero false) (Swapper.bbox_area f).
Definition left_key (f : Swapper.Face) : Np.float32 :=
  default (S754_zero false) (Swapper.bbox_left f).

(** X1.  The path without a retry does order the faces as asked: when the
    first detection needs no retry, every face has a bounding box and no
    sort key is [nan], the result is a permutation of the detected faces,
    by decreasing key when [sort_by_face_size] is set (the key is the
    [float32] product of width and height) and by increasing left edge
    otherwise; faces whose keys are equal as [float32] numbers keep the
    order of the detector.  This is the behaviour that the retry path of
    line 228 fails to keep. *)
Lemma get_faces_first_try_ordered img det_size det_thresh
    (sort_by_face_size : bool) :
  let face :=
    detect img det_size
      (Swapper.resolve_thresh opt_detection_threshold det_thresh) in
  let key := if sort_by_face_size then area_key else left_key in
  Swapper.must_retry face det_size = false ->
  Forall (fun f => is_Some (Swapper.bbox f)) face ->
  Forall (fun f => is_nan (key f) = false) face ->
  get_faces img det_size det_thresh sort_by_face_size ≡ₚ face
  /\ (if sort_by_face_size
      then descending area_key
             (get_faces img det_size det_thresh sort_by_face_size)
      else ascending left_key
             (get_faces img det_size det_thresh sort_by_face_size))
  /\ (forall k,
        with_key key k (get_faces img det_size det_thresh sort_by_face_size)
        = with_key key k face).
Proof.
  intros face key Hno Hbbox Hnum.
  rewrite get_faces_eq. cbv zeta. fold face. rewrite Hno.
  assert (Harea : forallb (fun f => bool_decide (is_Some (Swapper.bbox_area f))) face = true).
  { apply forallb_forall. intros f Hf. apply bool_decide_eq_true.
    rewrite Forall_forall in Hbbox. apply list_elem_of_In, Hbbox in Hf.
    destruct Hf as [[[[x0 y0] x1] y1] Hb].
    unfold Swapper.bbox_area. rewrite Hb. eauto. }
  assert (Hleft : forallb (fun f => bool_decide (is_Some (Swapper.bbox_left f))) face = true).
  { apply forallb_forall. intros f Hf. apply bool_decide_eq_true.
    rewrite Forall_forall in Hbbox. apply list_elem_of_In, Hbbox in Hf.
    destruct Hf as [[[[x0 y0] x1] y1] Hb].
    unfold Swapper.bbox_left. rewrite Hb. eauto. }
  unfold Swapper.sorted_or_empty. subst key.
  destruct sort_by_face_size; [rewrite Harea | rewrite Hleft];
    (split; [apply sorted_perm|]); split.
  - by apply (sorted_ordered area_key true).
  - intros k. apply (sorted_stable area_key).
  - by apply (sorted_ordered left_key false).
  - intros k. apply (sorted_stable left_key).
Qed.

End LocatorOrder.

(** A detector stub that finds nothing above 320x320, and below a small
    face on the left (area 100) and a large face on the right (area 400). *)
Definition small_left_face : Swapper.Face :=
  Swapper.mkFace (Some (Np.f32 10, Np.f32 0, Np.f32 20, Np.f32 10)) None [] 0 30.
Definition large_right_face : Swapper.Face :=
  Swapper.mkFace (Some (Np.f32 30, Np.f32 0, Np.f32 50, Np.f32 20)) None [] 1 40.

Definition detect_le320 (_ : unit) (det_size : Z * Z) (_ : Qc)
    : list Swapper.Face :=
  if (det_size.1 <=? 320) && (det_size.2 <=? 320)
  then [small_left_face; large_right_face] else [].

(** C3 (the code at the failing input).  Asked for the largest face first,
    [get_faces] at 640x640 retries at 320x320 and returns the faces by
    position, the smaller one first; the same request made at 320x320
    directly returns the larger one first. *)
Theorem get_faces_retry_loses_size_order :
  Swapper.get_faces unit detect_le320 None tt (640, 640) None true =
    [small_left_face; large_right_face]
  /\ Swapper.bbox_area small_left_face = Some (Np.f32 100)
  /\ Swapper.bbox_area large_right_face = Some (Np.f32 400)
  /\ Swapper.get_faces unit detect_le320 None tt (320, 320) None true =
       [large_right_face; small_left_face].
Proof. repeat split; vm_compute; reflexivity. Qed.

(** ** The similarity scorer *)

Section ScorerFacts.

Context (cosine_similarity : list Np.float32 -> list Np.float32 -> exc Qc).

(** X4.  The part of the score that [cosine_similarity_face] itself decides: the
    cosine of the library is kept when it is positive and replaced by 0
    otherwise, so that the score is never negative. *)
Lemma cosine_similarity_face_clamped face1 face2 raw :
  cosine_similarity (Swapper.embedding face1) (Swapper.embedding face2)
  = Ok raw ->
  exists score,
    Swapper.cosine_similarity_face cosine_similarity face1 face2 = Ok score
    /\ (0 <= score)%Qc
    /\ ((0 < raw)%Qc -> score = raw)
    /\ ((raw <= 0)%Qc -> score = 0%Qc).
Proof.
  intros Hraw. unfold Swapper.cosine_similarity_face. rewrite Hraw. simpl.
  eexists. split; [reflexivity|]. case_bool_decide as Hpos.
  - split; [by apply Qclt_le_weak|]. split; [done|].
    intros Hle. exfalso. by apply (Qclt_not_le _ _ Hpos).
  - split; [apply Qcle_refl|]. split; [done | done].
Qed.


End ScorerFacts.

(** ** The identity blender *)

Section BlenderFacts.

Import Np Swapper.

(** The values that a [float32] array can hold. *)
Definition valid32 (x : float32) : Prop := valid_binary 24 128 x = true.

Lemma f32_one : f32 1 = S754_finite false 8388608 (-23).
Proof. vm_compute. reflexivity. Qed.

Lemma div_eucl_pair a b : Z.div_eucl a b = (a / b, a mod b).
Proof. unfold Z.div, Z.modulo. by destruct (Z.div_eucl a b). Qed.

Lemma fexp32 z : fexp 24 128 z = Z.max (z - 24) (-149).
Proof. reflexivity. Qed.

(** Dividing by one is exact, for every [float32]. *)
Lemma div32_one x : valid32 x -> div32 x (f32 1) = x.
Proof.
  unfold valid32. rewrite f32_one.
  destruct x as [s|s| |s m e]; simpl; intros Hv;
    try (destruct s; reflexivity); try reflexivity.
  unfold bounded, canonical_mantissa in Hv.
  apply andb_prop in Hv as [Hc He].
  apply Z.eqb_eq in Hc. apply Z.leb_le in He.
  rewrite fexp32 in Hc.
  set (d := Z.pos (digits2_pos m)) in *.
  assert (Hd : 0 < d) by (unfold d; lia).
  unfold div32, SFdiv, SFdiv_core_binary.
  change (Zdigits2 (Z.pos m)) with d.
  change (Zdigits2 8388608) with 24.
  rewrite fexp32, xorb_false_r.
  destruct (Z_lt_le_dec (-149) e) as [Hnormal | Hsub].
  - (* a normal number above the smallest exponent: one more digit *)
    assert (d = 24) by lia.
    replace (Z.min (Z.max (d + e - (24 + -23) - 24) (-149)) (e - -23))
      with (e - 1) by lia.
    replace (e - -23 - (e - 1)) with 24 by lia.
    rewrite div_eucl_pair.
    rewrite Z.shiftl_mul_pow2 by lia.
    change (2 ^ 24) with (2 * 8388608).
    rewrite Z.mul_assoc, Z.div_mul, Z.mod_mul by lia.
    change (new_location 8388608 0) with loc_Exact.
    replace (Z.pos m * 2) with (Z.pos m~0) by lia.
    unfold binary_round_aux, shr_fexp.
    change (Zdigits2 (Z.pos m~0)) with (Z.pos (Pos.succ (digits2_pos m))).
    rewrite Pos2Z.inj_succ. fold d. rewrite fexp32.
    replace (Z.max (Z.succ d + (e - 1) - 24) (-149) - (e - 1)) with 1 by lia.
    cbn [shr shr_record_of_loc SpecFloat.iter_pos shr_1 orb shr_m
         loc_of_shr_record round_nearest_even].
    change (Zdigits2 (Z.pos m)) with d. rewrite fexp32.
    replace (Z.max (d + (e - 1 + 1) - 24) (-149) - (e - 1 + 1)) with 0 by lia.
    cbn [shr shr_m].
    replace (e - 1 + 1) with e by lia.
    by rewrite (proj2 (Z.leb_le e (128 - 24)) He).
  - (* the smallest exponent *)
    assert (e = -149) by lia. subst e.
    replace (Z.min (Z.max (d + -149 - (24 + -23) - 24) (-149)) (-149 - -23))
      with (-149) by lia.
    change (-149 - -23 - -149) with 23.
    rewrite div_eucl_pair.
    rewrite Z.shiftl_mul_pow2 by lia.
    change (2 ^ 23) with 8388608.
    rewrite Z.div_mul, Z.mod_mul by lia.
    change (new_location 8388608 0) with loc_Exact.
    unfold binary_round_aux, shr_fexp.
    change (Zdigits2 (Z.pos m)) with d. rewrite fexp32.
    replace (Z.max (d + -149 - 24) (-149) - -149) with 0 by lia.
    cbn [shr shr_record_of_loc shr_m loc_of_shr_record round_nearest_even].
    change (Zdigits2 (Z.pos m)) with d. rewrite fexp32.
    replace (Z.max (d + -149 - 24) (-149) - -149) with 0 by lia.
    cbn [shr shr_m]. reflexivity.
Qed.

(** The mean of one component, in the words of the specification and with
    the arithmetic of NumPy: the [i]-th entries are added in list order and
    the sum is divided by the number of rows, each step rounded to
    [float32]. *)
Definition column (i : nat) (rows : list (list float32)) : list float32 :=
  (fun row : list float32 => default (S754_zero false) (row !! i)) <$> rows.

Definition float32_mean (xs : list float32) : float32 :=
  match xs with
  | [] => S754_nan
  | x :: xs' => div32 (foldl add32 x xs') (f32 (Z.of_nat (length xs)))
  end.

Definition same_shape_as (face0 : Face) (f : Face) : Prop :=
  length (embedding f) = length (embedding face0).

(** Equal arrays, as [np.array_equal] sees them: the same length, and
    entries that are [==] at every place. *)
Definition np_equal (a b : list float32) : Prop :=
  length a = length b
  /\ (forall i x y, a !! i = Some x -> b !! i = Some y -> SFeqb x y = true).

Lemma array_equal_cons x a y b :
  array_equal (x :: a) (y :: b) = SFeqb x y && array_equal a b.
Proof.
  unfold array_equal. simpl.
  destruct (length a =? length b)%nat, (SFeqb x y); reflexivity.
Qed.

Lemma array_equal_spec a b : array_equal a b = true <-> np_equal a b.
Proof.
  unfold np_equal. revert b.
  induction a as [|x a IH]; intros [|y b].
  - split; [|reflexivity]. intros _. split; [reflexivity|].
    intros i x y Hx. by rewrite lookup_nil in Hx.
  - split; [discriminate|]. by intros [? _].
  - split; [discriminate|]. by intros [? _].
  - rewrite array_equal_cons, andb_true_iff, IH. split.
    + intros (Hxy & Hlen & Hall). split; [simpl; by rewrite Hlen|].
      intros [|i] x' y'; simpl; [by intros [= <-] [= <-]|]. apply Hall.
    + intros (Hlen & Hall). split; [exact (Hall O x y eq_refl eq_refl)|].
      split; [by injection Hlen|].
      intros i x' y'. exact (Hall (S i) x' y').
Qed.

Lemma array_equal_not a b : array_equal a b = false <-> ~ np_equal a b.
Proof.
  rewrite <- array_equal_spec. by destruct (array_equal a b).
Qed.

Lemma foldl_add_rows_length d rest : forall acc,
  length acc = d -> Forall (fun r : list float32 => length r = d) rest ->
  length (foldl add_rows acc rest) = d.
Proof.
  induction rest as [|r rest IH]; simpl; intros acc Hacc Hrest; [exact Hacc|].
  apply Forall_cons in Hrest as [Hr Hrest].
  apply IH; [|exact Hrest].
  unfold add_rows. rewrite length_zip_with. lia.
Qed.

Lemma foldl_add_rows_lookup d i rest : forall acc x,
  length acc = d -> Forall (fun r : list float32 => length r = d) rest ->
  acc !! i = Some x ->
  foldl add_rows acc rest !! i = Some (foldl add32 x (column i rest)).
Proof.
  induction rest as [|r rest IH]; simpl; intros acc x Hacc Hrest Hx.
  - exact Hx.
  - apply Forall_cons in Hrest as [Hr Hrest].
    assert (Hi : (i < length r)%nat).
    { apply lookup_lt_Some in Hx. lia. }
    destruct (lookup_lt_is_Some_2 r i Hi) as [y Hy].
    rewrite (IH (add_rows acc r) (add32 x y)).
    + unfold column. cbn [fmap list_fmap foldl]. by rewrite Hy.
    + unfold add_rows. rewrite length_zip_with. lia.
    + exact Hrest.
    + unfold add_rows. rewrite lookup_zip_with, Hx, Hy. reflexivity.
Qed.

(** [np.mean] along axis 0 is that mean, component by component. *)
Lemma np_mean_is_mean e0 rest i :
  Forall (fun r : list float32 => length r = length e0) rest ->
  (i < length e0)%nat ->
  np_mean (e0 :: rest) !! i = Some (float32_mean (column i (e0 :: rest))).
Proof.
  intros Hrest Hi.
  destruct (lookup_lt_is_Some_2 e0 i Hi) as [x Hx].
  unfold np_mean, float32_mean.
  rewrite list_lookup_fmap.
  rewrite (foldl_add_rows_lookup (length e0) i rest e0 x eq_refl Hrest Hx).
  cbn [column fmap list_fmap option_map fmap option_fmap].
  rewrite Hx. cbn [default length].
  change (list_fmap _ _ ?f rest) with (f <$> rest).
  fold (column i rest).
  by replace (length (column i rest)) with (length rest)
    by (unfold column; by rewrite length_fmap).
Qed.

Lemma np_mean_length e0 rest :
  Forall (fun r : list float32 => length r = length e0) rest ->
  length (np_mean (e0 :: rest)) = length e0.
Proof.
  intros Hrest. unfold np_mean. rewrite length_fmap.
  by apply foldl_add_rows_length.
Qed.

(** The mean of a single row is the row. *)
Lemma np_mean_single e0 : Forall valid32 e0 -> np_mean [e0] = e0.
Proof.
  unfold np_mean. cbn [foldl length]. change (Z.of_nat 1) with 1.
  induction 1 as [|x e0 Hx _ IH]; simpl; [reflexivity|].
  f_equal; [by apply div32_one | exact IH].
Qed.

Lemma shapes_agree face0 rest :
  Forall (same_shape_as face0) rest ->
  forallb (fun e : list float32 => (length e =? length (embedding face0))%nat)
    (embedding <$> face0 :: rest) = true.
Proof.
  intros Hrest. apply forallb_forall. intros e He.
  apply Nat.eqb_eq. apply list_elem_of_In in He.
  apply list_elem_of_fmap in He as [f [-> Hf]].
  apply elem_of_cons in Hf as [-> | Hf]; [reflexivity|].
  rewrite Forall_forall in Hrest. by apply Hrest.
Qed.

(** What [blend_faces] does on faces of one shape: the assertion of
    lines 347-351 decides between a result and an [AssertionError]. *)
Lemma blend_faces_same_shape face0 rest :
  Forall (same_shape_as face0) rest ->
  blend_faces (face0 :: rest) =
  let mean := np_mean (embedding <$> face0 :: rest) in
  if (1 <? length (face0 :: rest))%nat && array_equal mean (embedding face0)
  then Raise AssertionError
  else Ok (Some (mkFace None None mean (gender face0) (age face0))).
Proof.
  intros Hrest. unfold blend_faces.
  rewrite (shapes_agree face0 rest Hrest). reflexivity.
Qed.

(** C8 (amended).  Blending nothing gives [None]; blending one face gives
    back its embedding, gender and age.  For two or more faces of one
    shape the blend is decided by the mean that NumPy computes, component
    by component in [float32] (the entries added in list order, the sum
    divided by the number of faces): when that mean equals the first
    embedding, [blend_faces] raises [AssertionError] and returns no
    record; otherwise it returns the record that has this mean as its
    embedding and the gender and age of the first face. *)
Theorem blend_faces_mean :
  blend_faces [] = Ok None
  /\ (forall face0,
        Forall valid32 (embedding face0) ->
        blend_faces [face0] =
        Ok (Some (mkFace None None (embedding face0) (gender face0)
                    (age face0))))
  /\ (forall face0 rest,
        rest <> [] ->
        Forall (same_shape_as face0) rest ->
        exists mean,
          length mean = length (embedding face0)
          /\ (forall i, (i < length (embedding face0))%nat ->
                mean !! i =
                Some (float32_mean (column i (embedding <$> face0 :: rest))))
          /\ ((np_equal mean (embedding face0)
               /\ blend_faces (face0 :: rest) = Raise AssertionError)
              \/ (~ np_equal mean (embedding face0)
                  /\ blend_faces (face0 :: rest) =
                     Ok (Some (mkFace None None mean (gender face0)
                                 (age face0)))))).
Proof.
  split; [reflexivity|]. split.
  - intros face0 Hvalid.
    rewrite (blend_faces_same_shape face0 []) by constructor.
    cbv zeta. change (embedding <$> [face0]) with [embedding face0].
    by rewrite np_mean_single.
  - intros face0 rest Hne Hrest.
    exists (np_mean (embedding <$> face0 :: rest)).
    assert (Hshapes : Forall (fun r : list float32 =>
                                length r = length (embedding face0))
                        (embedding <$> rest)).
    { apply Forall_fmap. exact Hrest. }
    split; [by apply np_mean_length|]. split.
    + intros i Hi. by apply np_mean_is_mean.
    + rewrite (blend_faces_same_shape face0 rest Hrest). cbv zeta.
      replace (1 <? length (face0 :: rest))%nat with true
        by (destruct rest; [congruence | reflexivity]).
      cbn [andb].
      destruct (array_equal _ _) eqn:Heq.
      * left. split; [by apply array_equal_spec | reflexivity].
      * right. split; [by apply array_equal_not | reflexivity].
Qed.

(** C7 (amended).  For two or more faces of one shape, [blend_faces]
    raises [AssertionError] exactly when the mean that NumPy computes
    (component by component in [float32], the entries added in list order
    and the sum divided by the number of faces) equals the first
    embedding, and otherwise returns a face whose embedding is that mean,
    different from the first embedding; equal and different are those of
    [np.array_equal]. *)
Theorem blend_faces_differs_or_raises face0 rest :
  rest <> [] ->
  Forall (same_shape_as face0) rest ->
  exists mean,
    length mean = length (embedding face0)
    /\ (forall i, (i < length (embedding face0))%nat ->
          mean !! i =
          Some (float32_mean (column i (embedding <$> face0 :: rest))))
    /\ ((np_equal mean (embedding face0)
         /\ blend_faces (face0 :: rest) = Raise AssertionError)
        \/ (~ np_equal mean (embedding face0)
            /\ exists blended,
                 blend_faces (face0 :: rest) = Ok (Some blended)
                 /\ embedding blended = mean
                 /\ ~ np_equal (embedding blended) (embedding face0))).
Proof.
  intros Hne Hrest.
  exists (np_mean (embedding <$> face0 :: rest)).
  assert (Hshapes : Forall (fun r : list float32 =>
                              length r = length (embedding face0))
                      (embedding <$> rest)).
  { apply Forall_fmap. exact Hrest. }
  split; [by apply np_mean_length|]. split.
  { intros i Hi. by apply np_mean_is_mean. }
  rewrite (blend_faces_same_shape face0 rest Hrest). cbv zeta.
  assert (Hlen : (1 <? length (face0 :: rest))%nat = true).
  { destruct rest; [congruence|]. reflexivity. }
  rewrite Hlen. cbn [andb].
  destruct (array_equal _ _) eqn:Heq.
  - left. split; [by apply array_equal_spec | reflexivity].
  - right. apply array_equal_not in Heq. split; [exact Heq|].
    eexists. split; [reflexivity|]. simpl. by split.
Qed.

End BlenderFacts.

(** Faces with integer embeddings, for the examples. *)
Definition face_of (e : list Z) : Swapper.Face :=
  Swapper.mkFace None None (Np.f32 <$> e) 0 30.

(** The blend of [1, 0] and [0, 1] is [0.5, 0.5]. *)
Example np_mean_halves :
  Swapper.np_mean (Swapper.embedding <$> [face_of [1; 0]; face_of [0; 1]])
  = [Np.div32 (Np.f32 1) (Np.f32 2); Np.div32 (Np.f32 1) (Np.f32 2)].
Proof. vm_compute. reflexivity. Qed.

Definition blend_10_01 : Swapper.Face :=
  Swapper.mkFace None None
    (Swapper.np_mean (Swapper.embedding <$> [face_of [1; 0]; face_of [0; 1]]))
    0 30.

Lemma blend_faces_mean_witness :
  exists mean,
    length mean = 2%nat
    /\ (forall i, (i < 2)%nat ->
          mean !! i =
          Some (float32_mean
                  (column i
                     (Swapper.embedding <$> [face_of [1; 0]; face_of [0; 1]]))))
    /\ ((np_equal mean (Swapper.embedding (face_of [1; 0]))
         /\ Swapper.blend_faces [face_of [1; 0]; face_of [0; 1]]
            = Raise AssertionError)
        \/ (~ np_equal mean (Swapper.embedding (face_of [1; 0]))
            /\ Swapper.blend_faces [face_of [1; 0]; face_of [0; 1]] =
               Ok (Some (Swapper.mkFace None None mean
                           (Swapper.gender (face_of [1; 0]))
                           (Swapper.age (face_of [1; 0])))))).
Proof.
  apply (proj2 (proj2 blend_faces_mean) (face_of [1; 0]) [face_of [0; 1]]).
  - discriminate.
  - repeat constructor.
Defined.

Example blend_faces_halves :
  Swapper.blend_faces [face_of [1; 0]; face_of [0; 1]] = Ok (Some blend_10_01).
Proof. vm_compute. reflexivity. Qed.

Example blend_faces_single :
  Swapper.blend_faces [face_of [1; 0]] = Ok (Some (face_of [1; 0])).
Proof. vm_compute. reflexivity. Qed.

(** The [float32] number after 1. *)
Definition above_one : Np.float32 := S754_finite false 8388609 (-23).

(** C8 (counterexample).  The same face twice has the shape the claim asks
    for, and no record is returned: the assertion fails.  And the record
    returned for [1 + 2^-23] and [1] does not carry their arithmetic mean
    [1 + 2^-24], which is no [float32]: the sum rounds to 2 and the
    embedding is [1]. *)
Lemma blend_faces_raises_or_rounds :
  Swapper.blend_faces [face_of [1; 0]; face_of [1; 0]] = Raise AssertionError
  /\ Swapper.blend_faces
       [Swapper.mkFace None None [above_one] 0 30; face_of [1]]
     = Ok (Some (face_of [1]))
  /\ Np.value above_one = Some (Q2Qc (8388609 # 8388608))
  /\ Np.value (Np.f32 1) = Some 1%Qc
  /\ ((Q2Qc (8388609 # 8388608) + 1) / Q2Qc 2 <> 1)%Qc.
Proof.
  split; [vm_compute; reflexivity|]. split; [vm_compute; reflexivity|].
  split; [vm_compute; f_equal; by apply Qc_is_canon|].
  split; [vm_compute; f_equal; by apply Qc_is_canon|].
  intros H. apply (f_equal this) in H. vm_compute in H. discriminate.
Qed.

Lemma blend_faces_differs_or_raises_witness :
  exists mean,
    length mean = 2%nat
    /\ (forall i, (i < 2)%nat ->
          mean !! i =
          Some (float32_mean
                  (column i
                     (Swapper.embedding <$> [face_of [1; 0]; face_of [0; 1]]))))
    /\ ((np_equal mean (Swapper.embedding (face_of [1; 0]))
         /\ Swapper.blend_faces [face_of [1; 0]; face_of [0; 1]]
            = Raise AssertionError)
        \/ (~ np_equal mean (Swapper.embedding (face_of [1; 0]))
            /\ exists blended,
                 Swapper.blend_faces [face_of [1; 0]; face_of [0; 1]]
                 = Ok (Some blended)
                 /\ Swapper.embedding blended = mean
                 /\ ~ np_equal (Swapper.embedding blended)
                        (Swapper.embedding (face_of [1; 0])))).
Proof.
  apply (blend_faces_differs_or_raises (face_of [1; 0]) [face_of [0; 1]]).
  - discriminate.
  - repeat constructor.
Defined.

(** C7 (counterexample).  The embeddings [1], [0] and [2] are pairwise
    distinct, their mean is the first of them, and the assertion fails.
    So it does for [1] and [1 + 2^-23], whose sum rounds to 2. *)
Lemma blend_faces_assertion_fails :
  Swapper.array_equal [Np.f32 1] [Np.f32 0] = false
  /\ Swapper.array_equal [Np.f32 1] [Np.f32 2] = false
  /\ Swapper.array_equal [Np.f32 0] [Np.f32 2] = false
  /\ Swapper.blend_faces [face_of [1]; face_of [0]; face_of [2]]
     = Raise AssertionError
  /\ Swapper.array_equal [Np.f32 1] [above_one] = false
  /\ Swapper.blend_faces
       [face_of [1]; Swapper.mkFace None None [above_one] 0 30]
     = Raise AssertionError.
Proof. repeat split; vm_compute; reflexivity. Qed.


(** C9 (counterexample).  A library cosine is any function that returns
    the value of the documented cosine wherever that is a number.  The
    documented cosine of an embedding made of zeros with itself is 0, so
    that the similarity of such a face with itself is 0, not 1; and so it
    is for the embedding [2^-100], whose norm underflows to zero. *)
Definition agrees_with_library
    (cosine : list Np.float32 -> list Np.float32 -> exc Qc) : Prop :=
  forall a b raw q,
    Sklearn.cosine_similarity a b = Ok raw ->
    Np.value raw = Some q ->
    cosine a b = Ok q.


(** Such functions exist: the documented cosine itself, where it is a
    number. *)
Example agrees_with_library_met :
  agrees_with_library
    (fun a b =>
       match Sklearn.cosine_similarity a b with
       | Ok raw => match Np.value raw with
                   | Some q => Ok q
                   | None => Raise ExternalError
                   end
       | Raise e => Raise e
       end).
Proof. intros a b raw q Hraw Hq. by rewrite Hraw, Hq. Qed.

(** ** The unit pipeline *)

Section PipelineFacts.

Import Swapper.

Context (image array : Type)
  (pil_to_bgr : image -> array) (bgr_to_pil : array -> image)
  (detect : array -> Z * Z -> Qc -> list Face)
  (opt_detection_threshold : option Qc)
  (cosine_similarity : list Np.float32 -> list Np.float32 -> exc Qc)
  (swapper : Type) (getFaceSwapModel : string -> exc swapper)
  (swapper_get : swapper -> array -> Face -> Face -> bool -> exc array)
  (check_against_nsfw : image -> bool)
  (format_info : option string -> gmap nat Qc -> gmap nat Qc -> string).

Local Abbreviation swap_face :=
  (Swapper.swap_face image array pil_to_bgr bgr_to_pil detect
     opt_detection_threshold cosine_similarity swapper getFaceSwapModel
     swapper_get).
Local Abbreviation process_image_unit :=
  (Swapper.process_image_unit image array pil_to_bgr bgr_to_pil detect
     opt_detection_threshold cosine_similarity swapper getFaceSwapModel
     swapper_get check_against_nsfw format_info).
Local Abbreviation process_images_units :=
  (Swapper.process_images_units image array pil_to_bgr bgr_to_pil detect
     opt_detection_threshold cosine_similarity swapper getFaceSwapModel
     swapper_get check_against_nsfw format_info).
Local Abbreviation accepted := (Swapper.accepted image).

(** The candidate that one source face yields for a unit. *)
Definition candidate (model : string) (unit : FaceSwapUnitSettings)
    (img : image) (upscaled_swapper : bool) (src_face : option Face)
    : exc (ImageResult image) :=
  swap_face
    (match reference_face unit with Some ref => Some ref | None => src_face end)
    src_face img model (faces_index unit) (same_gender unit)
    upscaled_swapper (compute_similarity unit) (sort_by_size unit).

(** The output pair of a candidate. *)
Definition output_of (info : option string) (r : ImageResult image)
    : image * option string :=
  (result_image r,
   Some (format_info info (similarity r) (ref_similarity r))).

(** The loop of lines 482-527 over the source faces. *)
Definition unit_loop (model : string) (unit : FaceSwapUnitSettings)
    (img : image) (info : option string) (upscaled_swapper : bool) :=
  exc_fold
    (fun (results : list (image * option string)) src_face =>
       result <-! candidate model unit img upscaled_swapper src_face;
       if accepted unit result
       then Ok (results ++ [output_of info result])
       else Ok results).

Lemma process_image_unit_loop model unit img info upscaled_swapper force_blend :
  enable unit = true -> check_against_nsfw img = false ->
  process_image_unit model unit img info upscaled_swapper force_blend =
  (src_faces <-! source_faces unit force_blend;
   unit_loop model unit img info upscaled_swapper src_faces []).
Proof.
  intros He Hsafe. unfold Swapper.process_image_unit.
  rewrite He, Hsafe. reflexivity.
Qed.

Lemma unit_loop_cons model unit img info upscaled_swapper src src_faces results :
  unit_loop model unit img info upscaled_swapper (src :: src_faces) results =
  (result <-! candidate model unit img upscaled_swapper src;
   unit_loop model unit img info upscaled_swapper src_faces
     (if accepted unit result then results ++ [output_of info result]
      else results)).
Proof.
  unfold unit_loop. simpl.
  destruct (candidate model unit img upscaled_swapper src) as [r|e]; simpl;
    [|reflexivity].
  destruct (accepted unit r); reflexivity.
Qed.

(** The loop returns exactly when every candidate is produced, and then
    it has appended the accepted candidates, in order. *)
Lemma unit_loop_ok model unit img info upscaled_swapper src_faces :
  forall results out,
  unit_loop model unit img info upscaled_swapper src_faces results = Ok out <->
  exists rs,
    Forall2 (fun src r => candidate model unit img upscaled_swapper src = Ok r)
      src_faces rs
    /\ out = results ++ (output_of info <$> List.filter (accepted unit) rs).
Proof.
  induction src_faces as [|src src_faces IH]; intros results out.
  - unfold unit_loop. simpl. split.
    + intros [= <-]. exists []. split; [constructor|].
      simpl. by rewrite app_nil_r.
    + intros (rs & Hrs & ->). inversion Hrs; subst. simpl.
      by rewrite app_nil_r.
  - rewrite unit_loop_cons.
    destruct (candidate model unit img upscaled_swapper src) as [r|e] eqn:Hc;
      simpl.
    + rewrite IH. split.
      * intros (rs & Hrs & ->). exists (r :: rs).
        split; [by constructor|]. simpl.
        destruct (accepted unit r); simpl; [by rewrite <- app_assoc | done].
      * intros (rs & Hrs & ->). inversion Hrs as [|? r' ? rs' Hr Hrs']; subst.
        rewrite Hc in Hr. injection Hr as <-.
        exists rs'. split; [exact Hrs'|]. simpl.
        destruct (accepted unit r); simpl; [by rewrite <- app_assoc | done].
    + split; [discriminate|].
      intros (rs & Hrs & _). inversion Hrs as [|? r' ? rs' Hr Hrs']; subst.
      rewrite Hc in Hr. discriminate.
Qed.



Lemma filter_none {A} (p : A -> bool) l :
  Forall (fun x => p x = false) l -> List.filter p l = [].
Proof.
  induction 1 as [|x l Hx _ IH]; simpl; [reflexivity|].
  by rewrite Hx.
Qed.

(** The identities of a unit, when their choice does not raise. *)
Lemma source_faces_length unit src_faces :
  source_faces unit false = Ok src_faces ->
  length src_faces =
  if blend_faces_flag unit then 1%nat else length (faces unit).
Proof.
  unfold source_faces. destruct (blend_faces_flag unit); simpl.
  - destruct (1 <? length (faces unit))%nat.
    + destruct (reference_face unit), (blended_faces unit); try discriminate.
      destruct (array_equal _ _); [discriminate|]. by intros [= <-].
    + by intros [= <-].
  - intros [= <-]. by rewrite length_fmap.
Qed.


(** When the choice of identities and every swap go through, the unit
    returns. *)
Lemma process_image_unit_returns model unit img info upscaled_swapper
    force_blend src_faces rs :
  enable unit = true ->
  check_against_nsfw img = false ->
  source_faces unit force_blend = Ok src_faces ->
  Forall2 (fun src r => candidate model unit img upscaled_swapper src = Ok r)
    src_faces rs ->
  process_image_unit model unit img info upscaled_swapper force_blend =
  Ok (output_of info <$> List.filter (accepted unit) rs).
Proof.
  intros He Hsafe Hsrc Hrs.
  rewrite process_image_unit_loop by assumption.
  rewrite Hsrc. simpl. apply unit_loop_ok. exists rs. by split.
Qed.

(** *** Similarity gating *)

(** Without [compute_similarity], [swap_face] fills neither map. *)
Lemma swap_face_unscored reference_face source_face img model faces_index
    same_gender upscaled_swapper sort_by_face_size r :
  swap_face reference_face source_face img model faces_index same_gender
    upscaled_swapper false sort_by_face_size = Ok r ->
  similarity r = ∅ /\ ref_similarity r = ∅.
Proof.
  unfold Swapper.swap_face.
  destruct source_face as [src|]; [|discriminate].
  destruct (getFaceSwapModel model) as [face_swapper|e]; [|discriminate].
  simpl. destruct (exc_fold _ _ _) as [result|e]; [|discriminate].
  simpl. intros [= <-]. by split.
Qed.

Lemma all_at_least_spec bound (d : gmap nat Qc) :
  all_at_least bound d = true <->
  (forall i x, d !! i = Some x -> (bound <= x)%Qc).
Proof.
  unfold all_at_least, values. simpl. rewrite forallb_forall. split.
  - intros Hall i x Hix.
    apply (bool_decide_eq_true_1 (bound <= x)%Qc).
    apply (Hall (bool_decide (bound <= x)%Qc)).
    apply list_elem_of_In, list_elem_of_fmap. exists x. split; [done|].
    apply list_elem_of_fmap. exists (i, x). split; [done|].
    by apply elem_of_map_to_list.
  - intros Hall b Hb.
    apply list_elem_of_In, list_elem_of_fmap in Hb as (x & -> & Hx).
    apply list_elem_of_fmap in Hx as ([i x'] & -> & Hix).
    apply elem_of_map_to_list in Hix. simpl.
    apply bool_decide_eq_true_2. by apply (Hall i).
Qed.

Lemma all_at_least_below bound (d : gmap nat Qc) i x :
  d !! i = Some x -> (x < bound)%Qc -> all_at_least bound d = false.
Proof.
  intros Hix Hlt. apply not_true_is_false. rewrite all_at_least_spec.
  intros Hall. apply (Qclt_not_le _ _ Hlt). by apply (Hall i).
Qed.

(** The test of lines 506-517 when [check_similarity] is set. *)
Lemma accepted_checked unit r :
  check_similarity unit = true ->
  accepted unit r = true <->
  similarity r ≠ ∅
  /\ (forall i x, similarity r !! i = Some x -> (min_sim unit <= x)%Qc)
  /\ (forall i x, ref_similarity r !! i = Some x ->
                  (min_ref_sim unit <= x)%Qc).
Proof.
  intros Hcheck. unfold Swapper.accepted. rewrite Hcheck. simpl.
  rewrite !andb_true_iff, bool_decide_eq_true, !all_at_least_spec.
  tauto.
Qed.

(** C10.  An enabled unit with [check_similarity] but without
    [compute_similarity], on a safe image: every candidate comes back
    with both similarity maps empty and is rejected, so every run that
    returns gives the empty list. *)
Theorem process_image_unit_unscored_rejected model unit img info
    upscaled_swapper force_blend :
  enable unit = true ->
  check_against_nsfw img = false ->
  check_similarity unit = true ->
  compute_similarity unit = false ->
  (forall src_face r,
     candidate model unit img upscaled_swapper src_face = Ok r ->
     similarity r = ∅ /\ ref_similarity r = ∅ /\ accepted unit r = false)
  /\ (forall out,
        process_image_unit model unit img info upscaled_swapper force_blend
        = Ok out ->
        out = []).
Proof.
  intros He Hsafe Hcheck Hcompute.
  assert (Hcand : forall src_face r,
             candidate model unit img upscaled_swapper src_face = Ok r ->
             similarity r = ∅ /\ ref_similarity r = ∅
             /\ accepted unit r = false).
  { intros src_face r Hr. unfold candidate in Hr. rewrite Hcompute in Hr.
    apply swap_face_unscored in Hr as [Hsim Href].
    repeat split; try assumption.
    apply not_true_is_false. rewrite accepted_checked by assumption.
    intros [Hne _]. by apply Hne. }
  split; [exact Hcand|].
  intros out Hrun.
  rewrite process_image_unit_loop in Hrun by assumption.
  destruct (source_faces unit force_blend) as [src_faces|e]; [|discriminate].
  simpl in Hrun. apply unit_loop_ok in Hrun as (rs & Hrs & ->).
  rewrite filter_none; [reflexivity|].
  clear -Hrs Hcand. induction Hrs as [|src r srcs rs Hr _ IH];
    constructor; [|exact IH].
  by apply (Hcand src).
Qed.

(** C6 (amended).  With [check_similarity], the output of an enabled unit
    on a safe image is made of its accepted candidates, in order; a
    candidate with a similarity below [min_sim] or a reference similarity
    below [min_ref_sim] is rejected, one without any computed similarity
    is rejected too, and one with a computed similarity, all of them at
    or above the bounds, is accepted. *)
Theorem process_image_unit_gating model unit img info upscaled_swapper
    force_blend src_faces rs :
  enable unit = true ->
  check_against_nsfw img = false ->
  check_similarity unit = true ->
  source_faces unit force_blend = Ok src_faces ->
  Forall2 (fun src r => candidate model unit img upscaled_swapper src = Ok r)
    src_faces rs ->
  process_image_unit model unit img info upscaled_swapper force_blend =
    Ok (output_of info <$> List.filter (accepted unit) rs)
  /\ (forall r i x,
        (similarity r !! i = Some x /\ (x < min_sim unit)%Qc)
        \/ (ref_similarity r !! i = Some x /\ (x < min_ref_sim unit)%Qc) ->
        accepted unit r = false)
  /\ (forall r, similarity r = ∅ -> accepted unit r = false)
  /\ (forall r,
        similarity r ≠ ∅ ->
        (forall i x, similarity r !! i = Some x -> (min_sim unit <= x)%Qc) ->
        (forall i x, ref_similarity r !! i = Some x ->
                     (min_ref_sim unit <= x)%Qc) ->
        accepted unit r = true).
Proof.
  intros He Hsafe Hcheck Hsrc Hrs.
  split; [by apply (process_image_unit_returns _ _ _ _ _ _ src_faces)|].
  split; [|split].
  - intros r i x Hbelow. apply not_true_is_false.
    rewrite accepted_checked by assumption. intros (_ & Hsim & Href).
    destruct Hbelow as [[Hix Hlt] | [Hix Hlt]].
    + apply (Qclt_not_le _ _ Hlt). by apply (Hsim i).
    + apply (Qclt_not_le _ _ Hlt). by apply (Href i).
  - intros r Hempty. apply not_true_is_false.
    rewrite accepted_checked by assumption. intros [Hne _]. by apply Hne.
  - intros r Hne Hsim Href. by apply accepted_checked.
Qed.

(** *** The list of units *)

(** The loop of lines 546-558 for the last unit of the list, where the
    recursive call has answered [None]: the outputs of the unit are kept. *)
Lemma last_unit_loop model unit upscaled_swapper force_blend images :
  forall outs processed,
  Forall2 (fun (im : image * option string) out =>
             process_image_unit model unit im.1 im.2 upscaled_swapper
               force_blend = Ok out)
    images outs ->
  exc_fold
    (fun processed_images '(img, info) =>
       swapped <-! process_image_unit model unit img info upscaled_swapper
                     force_blend;
       Ok (processed_images ++ swapped))
    images processed
  = Ok (processed ++ concat outs).
Proof.
  induction images as [|[img info] images IH]; intros outs processed Houts;
    inversion Houts as [|? out ? outs' Hout Houts']; subst; simpl.
  - by rewrite app_nil_r.
  - simpl in Hout. rewrite Hout. simpl.
    rewrite (IH outs' _ Houts'). by rewrite <- app_assoc.
Qed.

(** C5 (amended).  With no unit left [process_images_units] returns
    [None], whatever the images; the caller then keeps the outputs of its
    own unit, so that a list of one unit returns the outputs of that unit
    on every image, concatenated. *)
Theorem process_images_units_base model upscaled_swapper force_blend :
  (forall images,
     process_images_units model [] images upscaled_swapper force_blend
     = Ok None)
  /\ (forall unit images outs,
        Forall2 (fun (im : image * option string) out =>
                   process_image_unit model unit im.1 im.2 upscaled_swapper
                     force_blend = Ok out)
          images outs ->
        process_images_units model [unit] images upscaled_swapper force_blend
        = Ok (Some (concat outs))).
Proof.
  split; [reflexivity|].
  intros unit images outs Houts. simpl.
  rewrite (last_unit_loop model unit upscaled_swapper force_blend images
             outs [] Houts).
  reflexivity.
Qed.

End PipelineFacts.

(** *** A small instance of the pipeline

    Images are numbers, a swap adds one to the image, the detector finds
    one face in every image and every cosine is 9/10. *)

Section Demo.

Import Swapper.

Definition demo_target : Face :=
  mkFace (Some (Np.f32 10, Np.f32 10, Np.f32 40, Np.f32 50)) None
    [Np.f32 1; Np.f32 0] 0 30.

Definition demo_detect (_ : nat) (_ : Z * Z) (_ : Qc) : list Face :=
  [demo_target].
Definition demo_detect_none (_ : nat) (_ : Z * Z) (_ : Qc) : list Face := [].
Definition demo_score : Qc := Q2Qc (9 # 10).
Definition demo_cosine (_ _ : list Np.float32) : exc Qc := Ok demo_score.
Definition demo_model (_ : string) : exc unit := Ok tt.
Definition demo_get (_ : unit) (a : nat) (_ _ : Face) (_ : bool) : exc nat :=
  Ok (S a).
Definition demo_nsfw (_ : nat) : bool := false.
Definition demo_format (_ : option string) (_ _ : gmap nat Qc) : string :=
  "info".

(** Two source faces, target face 0; the flags are the parameters. *)
Definition demo_unit (blend check compute : bool) (bound : Qc)
    : FaceSwapUnitSettings :=
  mkUnit true [face_of [1; 0]; face_of [0; 1]] (Some blend_10_01)
    (Some (face_of [1; 0])) {[0%nat]} false blend false check compute
    bound bound.

Definition demo_process_image_unit (detect : nat -> Z * Z -> Qc -> list Face) :=
  process_image_unit nat nat id id detect None demo_cosine unit demo_model
    demo_get demo_nsfw demo_format "inswapper".

Definition demo_candidate (detect : nat -> Z * Z -> Qc -> list Face) :=
  candidate nat nat id id detect None demo_cosine unit demo_model demo_get
    "inswapper".

Definition demo_process_images_units :=
  process_images_units nat nat id id demo_detect None demo_cosine unit
    demo_model demo_get demo_nsfw demo_format "inswapper".

Definition swapped_twice : list (nat * option string) :=
  [(1%nat, Some "info"); (1%nat, Some "info")].

Example fan_out_two :
  demo_process_image_unit demo_detect (demo_unit false false false 0%Qc)
    0%nat None false false = Ok swapped_twice.
Proof. vm_compute. reflexivity. Qed.

Example fan_out_blended :
  demo_process_image_unit demo_detect (demo_unit true false false 0%Qc)
    0%nat None false false = Ok [(1%nat, Some "info")].
Proof. vm_compute. reflexivity. Qed.

Example unscored_dropped :
  demo_process_image_unit demo_detect (demo_unit false true false 0%Qc)
    0%nat None false false = Ok [].
Proof. vm_compute. reflexivity. Qed.

End Demo.


Lemma process_image_unit_unscored_rejected_witness :
  let r : Swapper.ImageResult nat := Swapper.mkImageResult 1%nat ∅ ∅ in
  Swapper.similarity r = ∅
  /\ Swapper.ref_similarity r = ∅
  /\ Swapper.accepted nat (demo_unit false true false 0%Qc) r = false.
Proof.
  apply (proj1
           (process_image_unit_unscored_rejected nat nat id id demo_detect
              None demo_cosine unit demo_model demo_get demo_nsfw demo_format
              "inswapper" (demo_unit false true false 0%Qc) 0%nat None false
              false eq_refl eq_refl eq_refl eq_refl)
           (Some (face_of [1; 0]))).
  vm_compute. reflexivity.
Defined.

(** The candidate of the instance when similarities are computed. *)
Definition scored : Swapper.ImageResult nat :=
  Swapper.mkImageResult 1%nat {[0%nat := demo_score]} {[0%nat := demo_score]}.

Lemma process_image_unit_gating_witness :
  demo_process_image_unit demo_detect
    (demo_unit false true true (Q2Qc (1 # 2))) 0%nat None false false
  = Ok (output_of nat demo_format None <$>
        List.filter
          (Swapper.accepted nat (demo_unit false true true (Q2Qc (1 # 2))))
          [scored; scored]).
Proof.
  apply (proj1
           (process_image_unit_gating nat nat id id demo_detect None
              demo_cosine unit demo_model demo_get demo_nsfw demo_format
              "inswapper" (demo_unit false true true (Q2Qc (1 # 2))) 0%nat
              None false false
              [Some (face_of [1; 0]); Some (face_of [0; 1])] [scored; scored]
              eq_refl eq_refl eq_refl eq_refl
              ltac:(repeat constructor; vm_compute; reflexivity))).
Defined.

Example gating_keeps_scored :
  demo_process_image_unit demo_detect
    (demo_unit false true true (Q2Qc (1 # 2))) 0%nat None false false
  = Ok swapped_twice.
Proof. vm_compute. reflexivity. Qed.

Example gating_drops_low_scores :
  demo_process_image_unit demo_detect
    (demo_unit false true true (Q2Qc 1)) 0%nat None false false
  = Ok [].
Proof. vm_compute. reflexivity. Qed.

(** C6 (counterexample).  No face is found, so no similarity is computed:
    every computed similarity meets the bounds, and the candidates are
    dropped all the same. *)
Lemma process_image_unit_drops_unscored_candidate :
  let unit := demo_unit false true true 0%Qc in
  let r := Swapper.mkImageResult 0%nat ∅ ∅ in
  demo_candidate demo_detect_none unit 0%nat false (Some (face_of [1; 0]))
  = Ok r
  /\ (forall i x, Swapper.similarity r !! i = Some x ->
                  (Swapper.min_sim unit <= x)%Qc)
  /\ (forall i x, Swapper.ref_similarity r !! i = Some x ->
                  (Swapper.min_ref_sim unit <= x)%Qc)
  /\ demo_process_image_unit demo_detect_none unit 0%nat None false false
     = Ok [].
Proof.
  repeat split; try (vm_compute; reflexivity); intros i x Hx;
    simpl in Hx; by rewrite lookup_empty in Hx.
Qed.

Lemma process_images_units_base_witness :
  demo_process_images_units [demo_unit false false false 0%Qc]
    [(0%nat, None)] false false
  = Ok (Some (concat [swapped_twice])).
Proof.
  apply (proj2
           (process_images_units_base nat nat id id demo_detect None
              demo_cosine unit demo_model demo_get demo_nsfw demo_format
              "inswapper" false false)
           (demo_unit false false false 0%Qc) [(0%nat, None)]
           [swapped_twice]).
  repeat constructor.
Defined.

(** C5 (counterexample).  With an empty list of units the answer is
    [None], not the list of images that was passed in. *)
Lemma process_images_units_empty_is_none :
  demo_process_images_units [] [(0%nat, None)] false false = Ok None
  /\ demo_process_images_units [] [(0%nat, None)] false false
     <> Ok (Some [(0%nat, None)]).
Proof. split; [reflexivity | discriminate]. Qed.

(** ** The merge of the paste-back step *)

Section MergeFacts.

Import Np UpscaledInswapper.

(** The values of a [uint8]. *)
Definition uint8s : list Z := Z.of_nat <$> seq 0 256.

Definition is_uint8 (z : Z) : Prop := 0 <= z < 256.

Definition pixel_ok (px : pixel) : Prop :=
  is_uint8 px.1.1 /\ is_uint8 px.1.2 /\ is_uint8 px.2.

Lemma is_uint8_elem z : is_uint8 z -> In z uint8s.
Proof.
  intros Hz. unfold uint8s. apply list_elem_of_In, list_elem_of_fmap.
  exists (Z.to_nat z). split; [unfold is_uint8 in Hz; lia|].
  apply list_elem_of_In, in_seq. unfold is_uint8 in Hz. lia.
Qed.

(** The float32 facts behind the two ends of the blend, each checked on
    the 256 values of a channel. *)
Definition spec_float_eqb (a b : spec_float) : bool :=
  match a, b with
  | S754_zero s, S754_zero s' => Bool.eqb s s'
  | S754_finite s m e, S754_finite s' m' e' =>
      Bool.eqb s s' && (m =? m')%positive && (e =? e')
  | S754_infinity s, S754_infinity s' => Bool.eqb s s'
  | S754_nan, S754_nan => true
  | _, _ => false
  end.

Lemma spec_float_eqb_eq a b : spec_float_eqb a b = true -> a = b.
Proof.
  destruct a as [s|s| |s m e], b as [s'|s'| |s' m' e']; simpl;
    try discriminate; try reflexivity.
  - intros H. apply Bool.eqb_prop in H. by subst.
  - intros H. apply Bool.eqb_prop in H. by subst.
  - intros H. apply andb_prop in H as [H He]. apply andb_prop in H as [Hs Hm].
    apply Bool.eqb_prop in Hs. apply Pos.eqb_eq in Hm. apply Z.eqb_eq in He.
    by subst.
Qed.

Definition one_times (x : Z) : bool :=
  spec_float_eqb (mul32 (f32 1) (f32 x)) (f32 x).
Definition zero_times (s : bool) (x : Z) : bool :=
  spec_float_eqb (mul32 (S754_zero s) (f32 x)) (S754_zero s).
Definition plus_zero (x : Z) : bool :=
  spec_float_eqb (add32 (f32 x) (S754_zero false)) (f32 x).
Definition zero_plus (s : bool) (x : Z) : bool :=
  spec_float_eqb (add32 (S754_zero s) (f32 x)) (f32 x).
Definition cast_back (x : Z) : bool := to_uint8 (f32 x) =? x.

Lemma float32_tables :
  forallb (fun x =>
             one_times x && zero_times false x && zero_times true x
             && plus_zero x && zero_plus false x && zero_plus true x
             && cast_back x)
    uint8s = true.
Proof. vm_compute. reflexivity. Qed.

Lemma float32_facts x :
  is_uint8 x ->
  mul32 (f32 1) (f32 x) = f32 x
  /\ (forall s, mul32 (S754_zero s) (f32 x) = S754_zero s)
  /\ add32 (f32 x) (S754_zero false) = f32 x
  /\ (forall s, add32 (S754_zero s) (f32 x) = f32 x)
  /\ to_uint8 (f32 x) = x.
Proof.
  intros Hx. apply is_uint8_elem in Hx.
  pose proof (proj1 (forallb_forall _ _) float32_tables x Hx) as H.
  repeat (apply andb_prop in H as [H ?]).
  unfold one_times, zero_times, plus_zero, zero_plus, cast_back in *.
  repeat split.
  - by apply spec_float_eqb_eq.
  - intros []; by apply spec_float_eqb_eq.
  - by apply spec_float_eqb_eq.
  - intros []; by apply spec_float_eqb_eq.
  - by apply Z.eqb_eq.
Qed.

(** Where the weight is 1 the channel of the generated patch comes out. *)
Lemma blend_channel_one fake target :
  is_uint8 fake -> is_uint8 target ->
  blend_channel (f32 1) fake target = fake.
Proof.
  intros Hf Ht. unfold blend_channel.
  destruct (float32_facts fake Hf) as (Hone & _ & Hplus & _ & Hcast).
  destruct (float32_facts target Ht) as (_ & Hzero & _).
  change (sub32 (f32 1) (f32 1)) with (S754_zero false).
  by rewrite Hone, Hzero, Hplus, Hcast.
Qed.

(** Where the weight is 0 the channel of the target image is kept. *)
Lemma blend_channel_zero s fake target :
  is_uint8 fake -> is_uint8 target ->
  blend_channel (S754_zero s) fake target = target.
Proof.
  intros Hf Ht. unfold blend_channel.
  destruct (float32_facts fake Hf) as (_ & Hzero & _).
  destruct (float32_facts target Ht) as (Hone & _ & _ & Hplus & Hcast).
  replace (sub32 (f32 1) (S754_zero s)) with (f32 1)
    by (destruct s; reflexivity).
  by rewrite Hzero, Hone, Hplus, Hcast.
Qed.

(** The cast to [uint8] cuts the fraction off, towards zero, and keeps
    the low eight bits. *)
Lemma to_uint8_finite s m e :
  to_uint8 (S754_finite s m e)
  = (if 0 <=? e then cond_Zopp s (Z.pos m * 2 ^ e)
     else Z.quot (cond_Zopp s (Z.pos m)) (2 ^ (- e))) mod 256.
Proof.
  unfold to_uint8, trunc. f_equal.
  destruct (0 <=? e) eqn:He.
  - apply Z.leb_le in He. rewrite Z.shiftl_mul_pow2 by exact He.
    by destruct s.
  - apply Z.leb_gt in He. rewrite Z.shiftl_div_pow2 by lia.
    assert (Hpow : 0 < 2 ^ (- e)) by (apply Z.pow_pos_nonneg; lia).
    destruct s; cbn [cond_Zopp].
    + change (- Z.pos m) with (- (Z.pos m)).
      rewrite Z.quot_opp_l by lia. f_equal.
      symmetry. apply Z.quot_div_nonneg; lia.
    + symmetry. apply Z.quot_div_nonneg; lia.
Qed.

(** The entry of row [i] and column [j]. *)
Definition at2 {A} (a : array2 A) (i j : nat) : option A :=
  a !! i ≫= fun row : list A => row !! j.

Lemma merge_rows_shape (img_mask : array2 float32) :
  forall (bgr_fake target_img : array2 pixel),
  length <$> img_mask = length <$> bgr_fake ->
  length <$> img_mask = length <$> target_img ->
  length <$>
    zip_with
      (fun (mask_row : list float32) (rows : list pixel * list pixel) =>
         zip_with (fun m (px : pixel * pixel) => blend_pixel m px.1 px.2)
           mask_row (zip rows.1 rows.2))
      img_mask (zip bgr_fake target_img)
  = length <$> target_img.
Proof.
  induction img_mask as [|mask_row img_mask IH];
    intros [|fake_row bgr_fake] [|target_row target_img] Hf Ht;
    simpl in *; try discriminate; [reflexivity|].
  injection Hf as Hf0 Hf. injection Ht as Ht0 Ht.
  f_equal; [|by apply IH].
  rewrite length_zip_with, length_zip. lia.
Qed.

(** The output of [merge] has the shape of the target image. *)
Lemma merge_shape img_mask bgr_fake target_img out :
  merge img_mask bgr_fake target_img = Ok out ->
  length <$> out = length <$> target_img.
Proof.
  unfold merge, same_shape.
  destruct (bool_decide (length <$> img_mask = length <$> bgr_fake))
    eqn:Hf; [|discriminate].
  destruct (bool_decide (length <$> img_mask = length <$> target_img))
    eqn:Ht; [|discriminate].
  simpl. intros [= <-].
  apply bool_decide_eq_true_1 in Hf, Ht. by apply merge_rows_shape.
Qed.

(** Each output pixel is the blend of the two pixels at its place,
    weighted by the mask entry at that place. *)
Lemma merge_at img_mask bgr_fake target_img out i j m fake target :
  merge img_mask bgr_fake target_img = Ok out ->
  at2 img_mask i j = Some m ->
  at2 bgr_fake i j = Some fake ->
  at2 target_img i j = Some target ->
  at2 out i j = Some (blend_pixel m fake target).
Proof.
  unfold merge. destruct (_ && _); [|discriminate]. intros [= <-].
  unfold at2. intros Hm Hf Ht.
  destruct (img_mask !! i) as [mask_row|] eqn:Hmi; [|discriminate].
  destruct (bgr_fake !! i) as [fake_row|] eqn:Hfi; [|discriminate].
  destruct (target_img !! i) as [target_row|] eqn:Hti; [|discriminate].
  simpl in Hm, Hf, Ht.
  rewrite lookup_zip_with, Hmi. simpl.
  rewrite (lookup_zip_with pair bgr_fake target_img i), Hfi, Hti. simpl.
  rewrite lookup_zip_with, Hm. simpl.
  rewrite (lookup_zip_with pair fake_row target_row j), Hf, Ht.
  reflexivity.
Qed.

Lemma blend_pixel_one fake target :
  pixel_ok fake -> pixel_ok target -> blend_pixel (f32 1) fake target = fake.
Proof.
  destruct fake as [[b g] r], target as [[b' g'] r'].
  intros (Hb & Hg & Hr) (Hb' & Hg' & Hr'). simpl in *.
  by rewrite !blend_channel_one.
Qed.

Lemma blend_pixel_zero s fake target :
  pixel_ok fake -> pixel_ok target ->
  blend_pixel (S754_zero s) fake target = target.
Proof.
  destruct fake as [[b g] r], target as [[b' g'] r'].
  intros (Hb & Hg & Hr) (Hb' & Hg' & Hr'). simpl in *.
  by rewrite !blend_channel_zero.
Qed.

End MergeFacts.

Section PasteBackFacts.

Import Np UpscaledInswapper.

Context (affine : Type) (invertAffineTransform : affine -> affine)
  (warpAffine_u8 : array2 pixel -> affine -> nat * nat -> array2 pixel)
  (warpAffine_f32 : array2 float32 -> affine -> nat * nat -> array2 float32)
  (erode dilate : array2 float32 -> nat -> array2 float32)
  (GaussianBlur : array2 float32 -> Z * Z -> array2 float32)
  (opt_fthresh : option Z) (opt_erosion : option pynum).

Local Abbreviation paste_back :=
  (UpscaledInswapper.paste_back affine invertAffineTransform warpAffine_u8
     warpAffine_f32 erode dilate GaussianBlur opt_fthresh opt_erosion).
Local Abbreviation presence_mask :=
  (UpscaledInswapper.presence_mask affine invertAffineTransform
     warpAffine_f32 erode GaussianBlur opt_erosion).
Local Abbreviation difference_mask :=
  (UpscaledInswapper.difference_mask affine invertAffineTransform
     warpAffine_f32 dilate GaussianBlur opt_fthresh opt_erosion).

(** The generated patch in the frame of the target image, line 148. *)
Definition warped_patch (target_img bgr_fake : array2 pixel) (M : affine)
    : array2 pixel :=
  warpAffine_u8 bgr_fake (invertAffineTransform M)
    (width target_img, height target_img).

(** Whether the difference mask can be computed does not depend on the
    difference itself. *)
Lemma difference_mask_returns target_img fake_diff fake_diff' M d :
  difference_mask target_img fake_diff M = Ok d ->
  exists d', difference_mask target_img fake_diff' M = Ok d'.
Proof.
  unfold UpscaledInswapper.difference_mask, gaussian_blur.
  destruct (py_int _) as [k|e]; [|discriminate]. simpl.
  destruct (_ && _); [|discriminate].
  simpl. intros _. eauto.
Qed.

(** The difference mask does not reach the output. *)
Lemma paste_back_ignores_fake_diff target_img bgr_fake aimg_shape
    fake_diff fake_diff' M :
  paste_back target_img bgr_fake aimg_shape fake_diff M =
  paste_back target_img bgr_fake aimg_shape fake_diff' M.
Proof.
  unfold UpscaledInswapper.paste_back.
  destruct (presence_mask target_img aimg_shape M) as [img_mask|e];
    [|reflexivity].
  simpl. unfold UpscaledInswapper.difference_mask, gaussian_blur.
  destruct (py_int _) as [k|e]; [|reflexivity]. simpl.
  destruct (_ && _); reflexivity.
Qed.

(** C1.  When the paste-back step returns, the presence mask was
    computed, and the output has the shape of the target image.  Each of
    its pixels is, channel by channel, the [uint8] cast of the [float32]
    value [mask * patch + (1 - mask) * target]: the product, the
    difference and the sum are the IEEE-754 single precision operations,
    rounded to nearest, and the cast cuts the fraction off (it keeps the
    low eight bits of the integer part).  The presence
    mask is the only weight: the same output comes out for any difference
    mask.  Where the presence mask is 1 the pixel is the one of the warped
    patch; where it is 0 the pixel of the target image is unchanged. *)
Theorem paste_back_formula target_img bgr_fake aimg_shape fake_diff M out :
  paste_back target_img bgr_fake aimg_shape fake_diff M = Ok out ->
  exists img_mask,
    presence_mask target_img aimg_shape M = Ok img_mask
    /\ length <$> out = length <$> target_img
    /\ (forall fake_diff',
          paste_back target_img bgr_fake aimg_shape fake_diff' M = Ok out)
    /\ (forall i j m fake target,
          at2 img_mask i j = Some m ->
          at2 (warped_patch target_img bgr_fake M) i j = Some fake ->
          at2 target_img i j = Some target ->
          let channel (x y : Z) :=
            to_uint8
              (SFadd 24 128 (SFmul 24 128 m (f32 x))
                 (SFmul 24 128 (SFsub 24 128 (f32 1) m) (f32 y))) in
          at2 out i j
          = Some (channel fake.1.1 target.1.1, channel fake.1.2 target.1.2,
                  channel fake.2 target.2)
          /\ (pixel_ok fake -> pixel_ok target ->
              m = f32 1 -> at2 out i j = Some fake)
          /\ (pixel_ok fake -> pixel_ok target ->
              (exists s, m = S754_zero s) -> at2 out i j = Some target))
    /\ (forall s m e,
          to_uint8 (S754_finite s m e)
          = (if 0 <=? e then cond_Zopp s (Z.pos m * 2 ^ e)
             else Z.quot (cond_Zopp s (Z.pos m)) (2 ^ (- e))) mod 256).
Proof.
  intros Hrun.
  assert (Hany : forall fake_diff',
             paste_back target_img bgr_fake aimg_shape fake_diff' M = Ok out).
  { intros fake_diff'. rewrite <- Hrun. apply paste_back_ignores_fake_diff. }
  unfold UpscaledInswapper.paste_back in Hrun.
  destruct (presence_mask target_img aimg_shape M) as [img_mask|e];
    [|discriminate].
  simpl in Hrun.
  destruct (difference_mask target_img fake_diff M) as [d|e];
    [|discriminate].
  simpl in Hrun. fold (warped_patch target_img bgr_fake M) in Hrun.
  exists img_mask. split; [reflexivity|].
  split; [by apply merge_shape in Hrun|]. split; [exact Hany|].
  split; [|exact to_uint8_finite].
  intros i j m fake target Hm Hf Ht channel.
  pose proof (merge_at _ _ _ _ i j m fake target Hrun Hm Hf Ht) as Hout.
  split; [|split].
  - rewrite Hout. by destruct fake as [[b g] r], target as [[b' g'] r'].
  - intros Hfake Htarget ->. by rewrite Hout, blend_pixel_one.
  - intros Hfake Htarget [s ->]. by rewrite Hout, blend_pixel_zero.
Qed.

End PasteBackFacts.

(** *** A small instance of the paste-back step

    A target image of one row and two pixels; the warps, the erosion and
    the dilation leave their input as it is, and the blur clears the second
    column, so that the presence mask is 1 on the left and 0 on the right. *)

Section PasteBackDemo.

Import Np UpscaledInswapper.

Definition keep_warp {A} (a : array2 A) (_ : unit) (_ : nat * nat)
    : array2 A := a.
Definition keep_kernel (a : array2 float32) (_ : nat) : array2 float32 := a.
Definition clear_second (a : array2 float32) (_ : Z * Z) : array2 float32 :=
  (fun row : list float32 =>
     match row with
     | x :: _ :: rest => x :: f32 0 :: rest
     | _ => row
     end) <$> a.

Definition demo_paste_back :=
  paste_back unit id keep_warp keep_warp keep_kernel keep_kernel
    clear_second None None.

Definition demo_image : array2 pixel := [[(10, 20, 30); (40, 50, 60)]].
Definition demo_patch : array2 pixel := [[(1, 2, 3); (4, 5, 6)]].
Definition demo_diff : array2 float32 := [[f32 0; f32 50]].
Definition demo_merged : array2 pixel := [[(1, 2, 3); (40, 50, 60)]].

Example paste_back_demo :
  demo_paste_back demo_image demo_patch (1%nat, 2%nat) demo_diff tt
  = Ok demo_merged.
Proof. vm_compute. reflexivity. Qed.

Example presence_mask_demo :
  presence_mask unit id keep_warp keep_kernel clear_second None demo_image
    (1%nat, 2%nat) tt
  = Ok [[f32 1; f32 0]].
Proof. vm_compute. reflexivity. Qed.

(** A weight strictly between 0 and 1: the halfway blend, truncated. *)
Example blend_channel_half :
  blend_channel (div32 (f32 1) (f32 2)) 200 101 = 150.
Proof. vm_compute. reflexivity. Qed.

End PasteBackDemo.

Lemma paste_back_formula_witness :
  exists img_mask,
    UpscaledInswapper.presence_mask unit id keep_warp keep_kernel clear_second
      None demo_image (1%nat, 2%nat) tt = Ok img_mask
    /\ length <$> demo_merged = length <$> demo_image
    /\ (forall fake_diff',
          demo_paste_back demo_image demo_patch (1%nat, 2%nat) fake_diff' tt
          = Ok demo_merged)
    /\ (forall i j m fake target,
          at2 img_mask i j = Some m ->
          at2 (warped_patch unit id keep_warp demo_image demo_patch tt) i j
          = Some fake ->
          at2 demo_image i j = Some target ->
          let channel (x y : Z) :=
            Np.to_uint8
              (SFadd 24 128 (SFmul 24 128 m (Np.f32 x))
                 (SFmul 24 128 (SFsub 24 128 (Np.f32 1) m) (Np.f32 y))) in
          at2 demo_merged i j
          = Some (channel fake.1.1 target.1.1, channel fake.1.2 target.1.2,
                  channel fake.2 target.2)
          /\ (pixel_ok fake -> pixel_ok target ->
              m = Np.f32 1 -> at2 demo_merged i j = Some fake)
          /\ (pixel_ok fake -> pixel_ok target ->
              (exists s, m = S754_zero s) ->
              at2 demo_merged i j = Some target))
    /\ (forall s m e,
          Np.to_uint8 (S754_finite s m e)
          = (if 0 <=? e then cond_Zopp s (Z.pos m * 2 ^ e)
             else Z.quot (cond_Zopp s (Z.pos m)) (2 ^ (- e))) mod 256).
Proof.
  apply (paste_back_formula unit id keep_warp keep_warp keep_kernel
           keep_kernel clear_second None None demo_image demo_patch
           (1%nat, 2%nat) demo_diff tt demo_merged).
  vm_compute. reflexivity.
Defined.

(** * Further properties *)

(** ** The face locator: what a call returns *)

Section LocatorReach.

Context (image : Type) (detect : image -> Z * Z -> Qc -> list Swapper.Face)
  (opt_detection_threshold : option Qc).

Local Abbreviation get_faces :=
  (Swapper.get_faces image detect opt_detection_threshold).
Local Abbreviation resolve_thresh :=
  (Swapper.resolve_thresh opt_detection_threshold).

(** The detection size after [n] retries. *)
Fixpoint halved (n : nat) (det_size : Z * Z) : Z * Z :=
  match n with
  | O => det_size
  | S n' => halved n' (fst det_size / 2, snd det_size / 2)
  end.

Lemma sorted_or_empty_subset key reverse (l : list Swapper.Face) f :
  f ∈ Swapper.sorted_or_empty key reverse l -> f ∈ l.
Proof.
  unfold Swapper.sorted_or_empty. destruct (forallb _ l).
  - intros Hf. by rewrite sorted_perm in Hf.
  - intros Hf. by apply elem_of_nil in Hf.
Qed.

(** X2.  The threshold is resolved once and the sort flag is dropped once a
    retry happens; the result of [get_faces] is made of the faces that the
    detector finds at the first size, along the halving, where it finds a
    face or where a dimension is at most 320. *)
Theorem get_faces_reaches img_data det_size det_thresh sort_by_face_size :
  exists n,
    (forall k, (k < n)%nat ->
       detect img_data (halved k det_size) (resolve_thresh det_thresh) = []
       /\ 320 < fst (halved k det_size) /\ 320 < snd (halved k det_size))
    /\ Swapper.must_retry
         (detect img_data (halved n det_size) (resolve_thresh det_thresh))
         (halved n det_size) = false
    /\ (forall f,
          f ∈ get_faces img_data det_size det_thresh sort_by_face_size ->
          f ∈ detect img_data (halved n det_size)
                (resolve_thresh det_thresh)).
Proof.
  remember (Z.to_nat (fst det_size)) as m eqn:Hm.
  revert det_size det_thresh sort_by_face_size Hm.
  induction m as [m IH] using lt_wf_ind.
  intros det_size det_thresh sort_by_face_size Hm.
  destruct (Swapper.must_retry
              (detect img_data det_size (resolve_thresh det_thresh)) det_size)
    eqn:Hretry.
  - assert (Hretry' := Hretry). unfold Swapper.must_retry in Hretry'.
    apply andb_prop in Hretry' as [Hretry' Hh].
    apply andb_prop in Hretry' as [Hnone Hw].
    apply Z.ltb_lt in Hw, Hh. apply Nat.eqb_eq in Hnone.
    apply length_zero_iff_nil in Hnone.
    assert (Hlt : (Z.to_nat (fst det_size / 2) < m)%nat).
    { assert (0 <= fst det_size / 2 < fst det_size)
        by (split; [apply Z.div_pos | apply Z.div_lt]; lia).
      lia. }
    destruct (IH _ Hlt (fst det_size / 2, snd det_size / 2)
                (Some (resolve_thresh det_thresh)) false eq_refl)
      as (n & Hbefore & Hstop & Hsub).
    exists (S n). simpl. split; [|split].
    + intros [|k] Hk; simpl.
      * by repeat split.
      * apply Hbefore. lia.
    + exact Hstop.
    + intros f Hf. apply Hsub.
      rewrite get_faces_eq in Hf. cbv zeta in Hf. by rewrite Hretry in Hf.
  - exists O. simpl. split; [intros k Hk; lia|]. split; [exact Hretry|].
    intros f Hf. rewrite get_faces_eq in Hf. cbv zeta in Hf.
    rewrite Hretry in Hf.
    destruct sort_by_face_size; by apply sorted_or_empty_subset in Hf.
Qed.

(** X3.  A detected face without a bounding box makes the sort fail, and the
    [except] clause of line 240 turns that into an empty result. *)
Theorem get_faces_swallows_sort_failure img_data det_size det_thresh
    sort_by_face_size :
  let face := detect img_data det_size (resolve_thresh det_thresh) in
  Swapper.must_retry face det_size = false ->
  Exists (fun f => Swapper.bbox f = None) face ->
  get_faces img_data det_size det_thresh sort_by_face_size = [].
Proof.
  intros face Hno Hmissing.
  rewrite get_faces_eq. cbv zeta. fold face. rewrite Hno.
  apply Exists_exists in Hmissing as (f & Hf & Hbbox).
  assert (Hkey : forall key : Swapper.Face -> option Np.float32,
             key f = None ->
             forallb (fun f => bool_decide (is_Some (key f))) face = false).
  { intros key Hnone. apply not_true_is_false. intros Hall.
    rewrite forallb_forall in Hall.
    specialize (Hall f (proj1 (list_elem_of_In _ _) Hf)).
    apply bool_decide_eq_true_1 in Hall. rewrite Hnone in Hall.
    by destruct Hall. }
  unfold Swapper.sorted_or_empty.
  destruct sort_by_face_size; rewrite Hkey; try reflexivity.
  - unfold Swapper.bbox_area. by rewrite Hbbox.
  - unfold Swapper.bbox_left. by rewrite Hbbox.
Qed.

End LocatorReach.

(** A detector stub that finds two faces, of 4096 by 4098 and of 4097 by
    4097: the second is the larger one, by one, and the two products are
    the same [float32] number. *)
Definition tall_face : Swapper.Face :=
  Swapper.mkFace (Some (Np.f32 0, Np.f32 0, Np.f32 4096, Np.f32 4098)) None
    [] 0 30.
Definition square_face : Swapper.Face :=
  Swapper.mkFace (Some (Np.f32 0, Np.f32 0, Np.f32 4097, Np.f32 4097)) None
    [] 1 40.

Definition detect_tie (_ : unit) (_ : Z * Z) (_ : Qc) : list Swapper.Face :=
  [tall_face; square_face].

Lemma get_faces_first_try_ordered_witness :
  Swapper.get_faces unit detect_tie None tt (320, 320) None true
    ≡ₚ [tall_face; square_face]
  /\ descending area_key
       (Swapper.get_faces unit detect_tie None tt (320, 320) None true)
  /\ (forall k,
        with_key area_key k
          (Swapper.get_faces unit detect_tie None tt (320, 320) None true)
        = with_key area_key k [tall_face; square_face]).
Proof.
  apply (get_faces_first_try_ordered unit detect_tie None tt (320, 320)
           None true eq_refl).
  - repeat constructor; eexists; reflexivity.
  - repeat (constructor; [vm_compute; reflexivity|]). constructor.
Defined.

(** The two keys are equal, and the faces keep the order of the detector. *)
Example get_faces_keeps_ties :
  area_key tall_face = Np.f32 16785408
  /\ area_key square_face = Np.f32 16785408
  /\ Swapper.get_faces unit detect_tie None tt (320, 320) None true
     = [tall_face; square_face].
Proof. repeat split; vm_compute; reflexivity. Qed.

(** A detector stub whose only face has no bounding box. *)
Definition detect_boxless (_ : unit) (_ : Z * Z) (_ : Qc)
    : list Swapper.Face := [face_of [1; 0]].

Lemma get_faces_swallows_sort_failure_witness :
  Swapper.get_faces unit detect_boxless None tt (640, 640) None false = [].
Proof.
  apply (get_faces_swallows_sort_failure unit detect_boxless None tt
           (640, 640) None false eq_refl).
  constructor. reflexivity.
Defined.

(** ** Indexing with a default, and the drivers built on it *)

Section HelperFacts.

Import Swapper.

(** From index 0 upwards: the element, or the default past the end. *)
Lemma get_or_default_from_zero {A} (l : list A) (index : Z) (default : A) :
  0 <= index ->
  get_or_default l index default =
  Return (match l !! Z.to_nat index with
          | Some x => x
          | None => default
          end).
Proof.
  unfold get_or_default, getitem. intros Hpos.
  destruct (index <? Z.of_nat (length l)) eqn:Hlt.
  - apply Z.ltb_lt in Hlt.
    replace (index <? 0) with false by (symmetry; apply Z.ltb_ge; lia).
    replace (0 <=? index) with true by (symmetry; apply Z.leb_le; lia).
    replace (index <? Z.of_nat (length l)) with true
      by (symmetry; apply Z.ltb_lt; lia).
    simpl. destruct (l !! Z.to_nat index) eqn:Hx; [reflexivity|].
    apply lookup_ge_None in Hx. lia.
  - apply Z.ltb_ge in Hlt.
    rewrite (proj2 (lookup_ge_None l (Z.to_nat index))) by lia.
    reflexivity.
Qed.

(** X5.  [get_or_default] answers every index from 0 upwards without raising:
    the element when there is one, the default otherwise.  A negative index
    is below the length, so it is passed to [l[index]]: it counts from the
    end, and raises [IndexError] when it reaches before the first element,
    where the docstring promises the default. *)
Theorem get_or_default_cases {A} (l : list A) (index : Z) (default : A) :
  (0 <= index ->
     get_or_default l index default =
     Return (match l !! Z.to_nat index with
             | Some x => x
             | None => default
             end))
  /\ (- Z.of_nat (length l) <= index < 0 ->
        exists x,
          l !! Z.to_nat (index + Z.of_nat (length l)) = Some x
          /\ get_or_default l index default = Return x)
  /\ (index < - Z.of_nat (length l) ->
        get_or_default l index default = Fail IndexError).
Proof.
  split; [apply get_or_default_from_zero|].
  unfold get_or_default, getitem. split.
  - intros [Hlow Hneg].
    assert (Hin : (Z.to_nat (index + Z.of_nat (length l)) < length l)%nat)
      by lia.
    destruct (lookup_lt_is_Some_2 l _ Hin) as [x Hx].
    exists x. split; [exact Hx|].
    replace (index <? Z.of_nat (length l)) with true
      by (symmetry; apply Z.ltb_lt; lia).
    replace (index <? 0) with true by (symmetry; apply Z.ltb_lt; lia).
    replace (0 <=? index + Z.of_nat (length l)) with true
      by (symmetry; apply Z.leb_le; lia).
    replace (index + Z.of_nat (length l) <? Z.of_nat (length l)) with true
      by (symmetry; apply Z.ltb_lt; lia).
    simpl. by rewrite Hx.
  - intros Hlow.
    replace (index <? Z.of_nat (length l)) with true
      by (symmetry; apply Z.ltb_lt; lia).
    replace (index <? 0) with true by (symmetry; apply Z.ltb_lt; lia).
    replace (0 <=? index + Z.of_nat (length l)) with false
      by (symmetry; apply Z.leb_gt; lia).
    reflexivity.
Qed.

Context (image array file : Type) (pil_to_cv2 : image -> array)
  (Image_open : file -> exc image)
  (detect : array -> Z * Z -> Qc -> list Face)
  (opt_detection_threshold : option Qc)
  (cosine_similarity : list Np.float32 -> list Np.float32 -> exc Qc).

Local Abbreviation first_face :=
  (Swapper.first_face image array pil_to_cv2 detect opt_detection_threshold).
Local Abbreviation compare_faces :=
  (Swapper.compare_faces image array pil_to_cv2 detect
     opt_detection_threshold cosine_similarity).
Local Abbreviation get_faces_from_img_files :=
  (Swapper.get_faces_from_img_files image array file pil_to_cv2 Image_open
     detect opt_detection_threshold).

(** The faces of an image as the drivers locate them: default size, default
    threshold, ordered by position. *)
Definition located (img : image) : list Face :=
  get_faces array detect opt_detection_threshold (pil_to_cv2 img) (640, 640)
    None false.

(** Index 0 never raises: the first located face, or [None]. *)
Lemma first_face_head img : first_face img = Return (head (located img)).
Proof.
  unfold Swapper.first_face. fold (located img).
  rewrite (get_or_default_from_zero (Some <$> located img) 0 None) by lia.
  by destruct (located img).
Qed.

(** X6.  The score of a comparison is never negative, so that -1 is returned
    exactly when one of the two images has no face; otherwise the
    leftmost faces of the two images are compared. *)
Theorem compare_faces_sentinel img1 img2 score :
  compare_faces img1 img2 = Return score ->
  (score = (- 1)%Qc <-> located img1 = [] \/ located img2 = [])
  /\ (forall face1 rest1 face2 rest2,
        located img1 = face1 :: rest1 ->
        located img2 = face2 :: rest2 ->
        cosine_similarity_face cosine_similarity face1 face2 = Ok score
        /\ (0 <= score)%Qc).
Proof.
  unfold Swapper.compare_faces. rewrite !first_face_head. simpl.
  destruct (located img1) as [|face1 rest1] eqn:H1; simpl.
  { intros [= <-]. split; [by split; [left|]|]. intros; discriminate. }
  destruct (located img2) as [|face2 rest2] eqn:H2; simpl.
  { intros [= <-]. split; [by split; [right|]|]. intros; discriminate. }
  intros Hscore.
  destruct (cosine_similarity_face cosine_similarity face1 face2)
    as [s|e] eqn:Hcos; [|discriminate].
  injection Hscore as <-.
  assert (Hpos : (0 <= s)%Qc).
  { unfold cosine_similarity_face in Hcos.
    destruct (cosine_similarity _ _) as [raw|e]; [|discriminate].
    simpl in Hcos. injection Hcos as <-.
    case_bool_decide as Hraw; [by apply Qclt_le_weak | apply Qcle_refl]. }
  split.
  - split; [|intros [?|?]; discriminate].
    intros ->. exfalso. by apply Hpos.
  - intros f1 r1 f2 r2 [= <- <-] [= <- <-]. by split.
Qed.

(** X7.  With every file readable, the faces come one per file at most, in the
    order of the files: the first face of each image that has one. *)
Theorem get_faces_from_img_files_first_faces files imgs :
  Forall2 (fun file img => Image_open file = Ok img) files imgs ->
  get_faces_from_img_files files
  = Return (omap (fun img => head (located img)) imgs)
  /\ (length (omap (fun img => head (located img)) imgs) <= length files)%nat.
Proof.
  intros Hopen.
  assert (Hloop : forall faces,
    outcome_fold
      (fun faces file =>
         img <-? of_exc (Image_open file);
         face <-? first_face img;
         match face with
         | Some face => Return (faces ++ [face])
         | None => Return faces
         end)
      files faces
    = Return (faces ++ omap (fun img => head (located img)) imgs)).
  { induction Hopen as [|fl im fls ims Hfile _ IH]; intros faces; simpl.
    - by rewrite app_nil_r.
    - rewrite Hfile. simpl. rewrite first_face_head. simpl.
      destruct (head (located im)) as [face|]; simpl; rewrite IH;
        [by rewrite <- app_assoc | reflexivity]. }
  split.
  - unfold Swapper.get_faces_from_img_files.
    destruct files; [by inversion Hopen|].
    simpl (0 <? _)%nat. cbv iota. apply (Hloop []).
  - rewrite (Forall2_length _ _ _ Hopen). clear.
    induction imgs as [|im ims IH]; simpl; [lia|].
    unfold omap in IH. destruct (head (located im)); simpl; lia.
Qed.

End HelperFacts.

(** ** The identity blender: a shape that does not fit *)

Section BlenderMore.

Import Swapper.

(** X8.  A face whose embedding has another shape than the first one makes
    [blend_faces] raise [ValueError], before any blending. *)
Theorem blend_faces_shape_mismatch face0 rest :
  Exists (fun f => length (embedding f) <> length (embedding face0)) rest ->
  blend_faces (face0 :: rest) = Raise ValueError.
Proof.
  intros Hbad. unfold blend_faces.
  replace (forallb _ (embedding <$> face0 :: rest)) with false; [reflexivity|].
  symmetry. apply not_true_is_false. intros Hall.
  rewrite forallb_forall in Hall.
  apply Exists_exists in Hbad as (f & Hf & Hlen). apply Hlen.
  apply Nat.eqb_eq, Hall, list_elem_of_In, list_elem_of_fmap.
  exists f. split; [reflexivity|]. by right.
Qed.

End BlenderMore.

(** ** Swapping one image: what is touched and what is scored *)

Section SwapFacts.

Import Swapper.

Context (image array : Type)
  (pil_to_bgr : image -> array) (bgr_to_pil : array -> image)
  (detect : array -> Z * Z -> Qc -> list Face)
  (opt_detection_threshold : option Qc)
  (cosine_similarity : list Np.float32 -> list Np.float32 -> exc Qc)
  (swapper : Type) (getFaceSwapModel : string -> exc swapper)
  (swapper_get : swapper -> array -> Face -> Face -> bool -> exc array).

Local Abbreviation swap_face :=
  (Swapper.swap_face image array pil_to_bgr bgr_to_pil detect
     opt_detection_threshold cosine_similarity swapper getFaceSwapModel
     swapper_get).
Local Abbreviation locate :=
  (Swapper.locate array detect opt_detection_threshold).

(** The faces of the target image that [swap_face] numbers. *)
Definition target_faces_of (src : Face) (target_img : image)
    (same_gender sort_by_face_size : bool) : list Face :=
  gender_filter same_gender (gender src)
    (locate (pil_to_bgr target_img) sort_by_face_size).

Lemma exc_fold_unchanged {A S} (body : S -> A -> exc S) (l : list A) (s : S) :
  Forall (fun a => body s a = Ok s) l -> exc_fold body l s = Ok s.
Proof.
  induction 1 as [|a l Ha _ IH]; simpl; [reflexivity|].
  rewrite Ha. simpl. exact IH.
Qed.

Lemma exc_fold_invariant {A S} (P : S -> Prop) (body : S -> A -> exc S)
    (l : list A) :
  (forall s a s', a ∈ l -> P s -> body s a = Ok s' -> P s') ->
  forall s s', P s -> exc_fold body l s = Ok s' -> P s'.
Proof.
  induction l as [|a l IH]; simpl; intros Hbody s s' Hs Hrun.
  - by injection Hrun as <-.
  - destruct (body s a) as [s1|e] eqn:Ha; [|discriminate]. simpl in Hrun.
    apply (IH (fun s a s' Hin => Hbody s a s' (list_elem_of_further _ _ _ Hin))
              s1 s'); [|exact Hrun].
    apply (Hbody s a s1); [left | exact Hs | exact Ha].
Qed.

Lemma enumerate_bound {A} (l : list A) i x :
  (i, x) ∈ enumerate l -> (i < length l)%nat.
Proof.
  unfold enumerate. intros Hin.
  apply elem_of_lookup_imap_1 in Hin as (j & y & [= -> ->] & Hj).
  by apply lookup_lt_Some in Hj.
Qed.

(** X11.  When no target face has its position in [faces_index] (in particular
    when no face is found), the swap engine is never called: the result is
    the target image, converted to BGR and back, and no similarity is
    recorded, whether it was asked for or not. *)
Theorem swap_face_nothing_selected reference_face src target_img model
    faces_index same_gender upscaled_swapper compute_similarity
    sort_by_face_size face_swapper :
  getFaceSwapModel model = Ok face_swapper ->
  (forall i,
     (i < length (target_faces_of src target_img same_gender
                    sort_by_face_size))%nat ->
     i ∉ faces_index) ->
  swap_face reference_face (Some src) target_img model faces_index
    same_gender upscaled_swapper compute_similarity sort_by_face_size
  = Ok (mkImageResult (bgr_to_pil (pil_to_bgr target_img)) ∅ ∅).
Proof.
  intros Hmodel Hnone. unfold Swapper.swap_face. rewrite Hmodel. simpl.
  fold (target_faces_of src target_img same_gender sort_by_face_size).
  rewrite exc_fold_unchanged.
  2:{ apply Forall_forall. intros [i face] Hin.
      apply enumerate_bound, Hnone in Hin.
      by rewrite bool_decide_eq_false_2. }
  simpl. destruct compute_similarity; [|reflexivity].
  rewrite exc_fold_unchanged; [reflexivity|].
  apply Forall_forall. intros [i face] _.
  destruct (bool_decide (i ∈ faces_index)) eqn:Hi; [|reflexivity].
  apply bool_decide_eq_true_1 in Hi.
  replace (i <? _)%nat with false; [reflexivity|].
  symmetry. apply Nat.ltb_ge. apply Nat.nlt_ge. intros Hlt.
  by apply (Hnone i Hlt).
Qed.

Lemma cosine_similarity_face_nonneg face1 face2 score :
  cosine_similarity_face cosine_similarity face1 face2 = Ok score ->
  (0 <= score)%Qc.
Proof.
  unfold cosine_similarity_face.
  destruct (cosine_similarity _ _) as [raw|e]; [|discriminate].
  simpl. intros [= <-].
  case_bool_decide as Hraw; [by apply Qclt_le_weak | apply Qcle_refl].
Qed.

(** What the two maps of a result hold. *)
Definition scores_ok (faces_index : gset nat) (n : nat)
    (sims : gmap nat Qc * gmap nat Qc) : Prop :=
  dom sims.1 = dom sims.2
  /\ (forall i, i ∈ dom sims.1 -> i ∈ faces_index /\ (i < n)%nat)
  /\ (forall i x, sims.1 !! i = Some x -> (0 <= x)%Qc)
  /\ (forall i x, sims.2 !! i = Some x -> (0 <= x)%Qc).

(** X12.  The two similarity maps of a result have the same keys; every key is a
    position of [faces_index] below the number of target faces, and no
    score is negative. *)
Theorem swap_face_scores reference_face src target_img model faces_index
    same_gender upscaled_swapper compute_similarity sort_by_face_size r :
  swap_face reference_face (Some src) target_img model faces_index
    same_gender upscaled_swapper compute_similarity sort_by_face_size
  = Ok r ->
  scores_ok faces_index
    (length (target_faces_of src target_img same_gender sort_by_face_size))
    (similarity r, ref_similarity r).
Proof.
  unfold Swapper.swap_face.
  destruct (getFaceSwapModel model) as [face_swapper|e]; [|discriminate].
  simpl. fold (target_faces_of src target_img same_gender sort_by_face_size).
  destruct (exc_fold _ _ _) as [result|e]; [|discriminate]. simpl.
  assert (Hempty : scores_ok faces_index
            (length (target_faces_of src target_img same_gender
                       sort_by_face_size)) (∅, ∅)).
  { unfold scores_ok. simpl. repeat split; done. }
  destruct compute_similarity; [|by intros [= <-]].
  destruct (exc_fold _ _ _) as [[sim0 ref0]|e] eqn:Hfold; [|discriminate].
  simpl. intros [= <-]. simpl.
  revert Hfold.
  apply (exc_fold_invariant
           (scores_ok faces_index
              (length (target_faces_of src target_img same_gender
                         sort_by_face_size)))); [|exact Hempty].
  clear. intros [sim ref] [i face] [sim' ref'] _ Hinv.
  pose proof Hinv as (Hdom & Hkeys & Hsim & Href). simpl in *.
  destruct (bool_decide (i ∈ faces_index)) eqn:Hi; simpl;
    [|by intros [= <- <-]].
  destruct (i <? _)%nat eqn:Hlt; [|by intros [= <- <-]].
  apply bool_decide_eq_true_1 in Hi. apply Nat.ltb_lt in Hlt.
  destruct (cosine_similarity_face cosine_similarity src face)
    as [s|e] eqn:Hs; [|discriminate]. simpl.
  destruct reference_face as [reference|]; [|discriminate].
  destruct (cosine_similarity_face cosine_similarity reference face)
    as [s'|e] eqn:Hs'; [|discriminate]. simpl.
  intros [= <- <-]. unfold scores_ok. simpl.
  apply cosine_similarity_face_nonneg in Hs, Hs'.
  split; [|split; [|split]].
  - by rewrite !dom_insert_L, Hdom.
  - intros j Hj. rewrite dom_insert_L in Hj.
    apply elem_of_union in Hj as [Hj|Hj].
    + apply elem_of_singleton in Hj as ->. by split.
    + by apply Hkeys.
  - intros j x Hx. destruct (decide (i = j)) as [<-|Hne].
    + rewrite lookup_insert_eq in Hx. by injection Hx as <-.
    + rewrite lookup_insert_ne in Hx by done. by apply (Hsim j).
  - intros j x Hx. destruct (decide (i = j)) as [<-|Hne].
    + rewrite lookup_insert_eq in Hx. by injection Hx as <-.
    + rewrite lookup_insert_ne in Hx by done. by apply (Href j).
Qed.

End SwapFacts.

(** ** Units and lists of units: bounds and pass-through *)

Section UnitsFacts.

Import Swapper.

Context (image array : Type)
  (pil_to_bgr : image -> array) (bgr_to_pil : array -> image)
  (detect : array -> Z * Z -> Qc -> list Face)
  (opt_detection_threshold : option Qc)
  (cosine_similarity : list Np.float32 -> list Np.float32 -> exc Qc)
  (swapper : Type) (getFaceSwapModel : string -> exc swapper)
  (swapper_get : swapper -> array -> Face -> Face -> bool -> exc array)
  (check_against_nsfw : image -> bool)
  (format_info : option string -> gmap nat Qc -> gmap nat Qc -> string).

Local Abbreviation process_image_unit :=
  (Swapper.process_image_unit image array pil_to_bgr bgr_to_pil detect
     opt_detection_threshold cosine_similarity swapper getFaceSwapModel
     swapper_get check_against_nsfw format_info).
Local Abbreviation process_images_units :=
  (Swapper.process_images_units image array pil_to_bgr bgr_to_pil detect
     opt_detection_threshold cosine_similarity swapper getFaceSwapModel
     swapper_get check_against_nsfw format_info).

(** The number of identities of a unit. *)
Definition fan_out (unit : FaceSwapUnitSettings) : nat :=
  if blend_faces_flag unit then 1%nat else length (faces unit).

Lemma filter_length_bound {A} (p : A -> bool) l :
  (length (List.filter p l) <= length l)%nat.
Proof.
  induction l as [|x l IH]; simpl; [lia|].
  destruct (p x); simpl; lia.
Qed.

(** X13.  Whatever the similarity check decides, a unit never returns more pairs
    than it has identities, and every pair it returns for a safe image
    carries an info text. *)
Theorem process_image_unit_at_most model unit img info upscaled_swapper out :
  enable unit = true ->
  check_against_nsfw img = false ->
  process_image_unit model unit img info upscaled_swapper false = Ok out ->
  (length out <= fan_out unit)%nat
  /\ Forall (fun pair : image * option string => is_Some pair.2) out.
Proof.
  intros He Hsafe Hrun.
  rewrite (process_image_unit_loop image array pil_to_bgr bgr_to_pil detect
             opt_detection_threshold cosine_similarity swapper
             getFaceSwapModel swapper_get check_against_nsfw format_info)
    in Hrun by assumption.
  destruct (source_faces unit false) as [src_faces|e] eqn:Hsrc;
    [|discriminate].
  simpl in Hrun. apply unit_loop_ok in Hrun as (rs & Hrs & ->).
  simpl. split.
  - rewrite length_fmap. etransitivity; [apply filter_length_bound|].
    rewrite <- (Forall2_length _ _ _ Hrs). unfold fan_out.
    by rewrite (source_faces_length unit src_faces Hsrc).
  - apply Forall_fmap, Forall_forall. intros r _. simpl. eauto.
Qed.

(** A disabled unit returns nothing and a flagged image comes back as it
    is, with its info, whatever the unit asks for. *)
Lemma process_image_unit_bypass model unit img info upscaled_swapper
    force_blend :
  (enable unit = false ->
   process_image_unit model unit img info upscaled_swapper force_blend = Ok [])
  /\ (enable unit = true -> check_against_nsfw img = true ->
      process_image_unit model unit img info upscaled_swapper force_blend
      = Ok [(img, info)]).
Proof.
  unfold Swapper.process_image_unit. split.
  - by intros ->.
  - by intros -> ->.
Qed.

Lemma process_images_units_nil_images model units upscaled_swapper
    force_blend :
  exists r,
    process_images_units model units [] upscaled_swapper force_blend = Ok r
    /\ truthy r = false.
Proof. destruct units; simpl; eauto. Qed.

(** With at least one unit the answer is a list, never [None]. *)
Theorem process_images_units_is_list model unit0 units images
    upscaled_swapper force_blend r :
  process_images_units model (unit0 :: units) images upscaled_swapper
    force_blend = Ok r ->
  is_Some r.
Proof.
  simpl. destruct (exc_fold _ _ _); [|discriminate].
  simpl. intros [= <-]. eauto.
Qed.

(** X14.  A disabled unit does not pass the images on: it returns none, the
    later units are run on nothing, and the list comes back empty. *)
Theorem process_images_units_disabled_head model unit0 units images
    upscaled_swapper force_blend :
  enable unit0 = false ->
  process_images_units model (unit0 :: units) images upscaled_swapper
    force_blend = Ok (Some []).
Proof.
  intros Hoff. simpl.
  rewrite exc_fold_unchanged; [reflexivity|].
  apply Forall_forall. intros [img info] _.
  rewrite (proj1 (process_image_unit_bypass model unit0 img info
                    upscaled_swapper force_blend) Hoff).
  simpl.
  destruct (process_images_units_nil_images model units upscaled_swapper
              force_blend) as (r & Hr & Hfalse).
  rewrite Hr. simpl. by rewrite Hfalse.
Qed.

(** X15.  Flagged images pass through any list of enabled units unchanged. *)
Theorem process_images_units_flagged model units images upscaled_swapper
    force_blend :
  units <> [] ->
  Forall (fun unit => enable unit = true) units ->
  Forall (fun pair : image * option string =>
            check_against_nsfw pair.1 = true) images ->
  process_images_units model units images upscaled_swapper force_blend
  = Ok (Some images).
Proof.
  intros Hne Hon. revert images.
  induction Hon as [|unit0 units Hon0 Hon IH]; [congruence|].
  intros images Hflagged. simpl.
  assert (Hloop : forall processed,
    exc_fold
      (fun processed_images '(img, info) =>
         swapped <-! process_image_unit model unit0 img info upscaled_swapper
                       force_blend;
         nexts <-! process_images_units model units swapped upscaled_swapper
                     force_blend;
         if truthy nexts
         then Ok (processed_images ++ default [] nexts)
         else Ok (processed_images ++ swapped))
      images processed
    = Ok (processed ++ images)).
  { induction Hflagged as [|[img info] images Hflag _ IHimages];
      intros processed; simpl.
    - by rewrite app_nil_r.
    - simpl in Hflag.
      rewrite (proj2 (process_image_unit_bypass model unit0 img info
                        upscaled_swapper force_blend) Hon0 Hflag).
      simpl.
      assert (Hnext : exists nexts,
                process_images_units model units [(img, info)]
                  upscaled_swapper force_blend = Ok nexts
                /\ (if truthy nexts
                    then processed ++ default [] nexts
                    else processed ++ [(img, info)])
                   = processed ++ [(img, info)]).
      { destruct units as [|unit1 units'].
        - exists None. by split.
        - exists (Some [(img, info)]). split; [|reflexivity].
          apply IH; [discriminate|]. by repeat constructor. }
      destruct Hnext as (nexts & Hnexts & Hkeep). rewrite Hnexts. simpl.
      transitivity
        (exc_fold
           (fun processed_images '(img, info) =>
              swapped <-! process_image_unit model unit0 img info
                            upscaled_swapper force_blend;
              nexts <-! process_images_units model units swapped
                          upscaled_swapper force_blend;
              if truthy nexts
              then Ok (processed_images ++ default [] nexts)
              else Ok (processed_images ++ swapped))
           images (processed ++ [(img, info)])).
      + destruct (truthy nexts); simpl; [by rewrite Hkeep | reflexivity].
      + rewrite IHimages. by rewrite <- app_assoc. }
  by rewrite (Hloop []).
Qed.

(** The outputs of one unit on a list of images. *)
Definition unit_outputs (model : string) (unit : FaceSwapUnitSettings)
    (upscaled_swapper force_blend : bool)
    (images : list (image * option string))
    (outs : list (list (image * option string))) : Prop :=
  Forall2 (fun (im : image * option string) out =>
             process_image_unit model unit im.1 im.2 upscaled_swapper
               force_blend = Ok out)
    images outs.

Lemma single_unit_outputs model unit upscaled_swapper force_blend images outs :
  unit_outputs model unit upscaled_swapper force_blend images outs ->
  process_images_units model [unit] images upscaled_swapper force_blend
  = Ok (Some (concat outs)).
Proof.
  intros Houts. simpl.
  by rewrite (last_unit_loop image array pil_to_bgr bgr_to_pil detect
                opt_detection_threshold cosine_similarity swapper
                getFaceSwapModel swapper_get check_against_nsfw format_info
                model unit upscaled_swapper force_blend images outs []
                Houts).
Qed.

(** What the second unit makes of the outputs of the first, image by
    image: its own outputs, or the outputs of the first unit when it has
    none. *)
Definition keep_or_replace (swapped : list (image * option string))
    (nexts : list (list (image * option string)))
    : list (image * option string) :=
  match concat nexts with
  | [] => swapped
  | next :: nexts' => next :: nexts'
  end.

(** X16.  Two units in a row: every output of the first is given to the second,
    and the outputs of the second replace it; but where the second unit
    returns nothing for any output of an image, the outputs of the first
    unit for that image are returned instead.  In particular a second unit
    that rejects everything leaves the result of the first unit alone. *)
Theorem process_images_units_two model unit1 unit2 images outs1 outs2
    upscaled_swapper force_blend :
  unit_outputs model unit1 upscaled_swapper force_blend images outs1 ->
  Forall2 (unit_outputs model unit2 upscaled_swapper force_blend)
    outs1 outs2 ->
  process_images_units model [unit1; unit2] images upscaled_swapper
    force_blend
  = Ok (Some (concat (zip_with keep_or_replace outs1 outs2)))
  /\ (Forall (Forall (fun out => out = [])) outs2 ->
      process_images_units model [unit1; unit2] images upscaled_swapper
        force_blend
      = process_images_units model [unit1] images upscaled_swapper
          force_blend).
Proof.
  intros H1 H2.
  assert (Hrun :
    process_images_units model [unit1; unit2] images upscaled_swapper
      force_blend
    = Ok (Some (concat (zip_with keep_or_replace outs1 outs2)))).
  { change (process_images_units model [unit1; unit2] images
              upscaled_swapper force_blend)
      with (processed_images <-! exc_fold
              (fun processed_images '(img, info) =>
                 swapped <-! process_image_unit model unit1 img info
                               upscaled_swapper force_blend;
                 nexts <-! process_images_units model [unit2] swapped
                             upscaled_swapper force_blend;
                 if truthy nexts
                 then Ok (processed_images ++ default [] nexts)
                 else Ok (processed_images ++ swapped))
              images [];
            Ok (Some processed_images)).
    set (body := fun (processed_images : list (image * option string))
                     '(img, info) =>
           swapped <-! process_image_unit model unit1 img info
                         upscaled_swapper force_blend;
           nexts <-! process_images_units model [unit2] swapped
                       upscaled_swapper force_blend;
           if truthy nexts
           then Ok (processed_images ++ default [] nexts)
           else Ok (processed_images ++ swapped)).
    assert (Hloop : forall processed,
      exc_fold body images processed
      = Ok (processed ++ concat (zip_with keep_or_replace outs1 outs2))).
    { revert outs2 H2.
      induction H1 as [|[img info] out1 images outs1 Hout1 _ IH];
        intros outs2 H2 processed;
        inversion H2 as [|? out2 ? outs2' Hout2 H2']; subst.
      - simpl. by rewrite app_nil_r.
      - assert (Hbody : body processed (img, info)
                        = Ok (processed ++ keep_or_replace out1 out2)).
        { unfold body. simpl in Hout1. rewrite Hout1.
          cbn [exc_bind].
          rewrite (single_unit_outputs model unit2 upscaled_swapper
                     force_blend out1 out2 Hout2).
          cbn [exc_bind]. unfold keep_or_replace.
          by destruct (concat out2). }
        change (exc_fold body ((img, info) :: images) processed)
          with (s' <-! body processed (img, info); exc_fold body images s').
        rewrite Hbody. cbn [exc_bind]. rewrite (IH outs2' H2').
        simpl. by rewrite <- app_assoc. }
    by rewrite (Hloop []). }
  split; [exact Hrun|].
  intros Hnone. rewrite Hrun, (single_unit_outputs _ _ _ _ _ _ H1).
  do 2 f_equal. clear Hrun H1.
  induction H2 as [|out1 out2 outs1 outs2 _ _ IH]; [reflexivity|].
  apply Forall_cons in Hnone as [Hnone2 Hnone].
  simpl. rewrite (IH Hnone). f_equal.
  unfold keep_or_replace.
  replace (concat out2) with (@nil (image * option string)); [reflexivity|].
  clear -Hnone2. induction Hnone2 as [|o out2 -> _ IH]; [reflexivity|].
  simpl. exact IH.
Qed.

End UnitsFacts.

(** ** The batch driver *)

Section BatchFacts.

Import Swapper.

Context (image array : Type)
  (pil_to_bgr : image -> array) (bgr_to_pil : array -> image)
  (detect : array -> Z * Z -> Qc -> list Face)
  (opt_detection_threshold : option Qc)
  (cosine_similarity : list Np.float32 -> list Np.float32 -> exc Qc)
  (swapper : Type) (getFaceSwapModel : string -> exc swapper)
  (swapper_get : swapper -> array -> Face -> Face -> bool -> exc array)
  (check_against_nsfw : image -> bool)
  (format_info : option string -> gmap nat Qc -> gmap nat Qc -> string)
  (current_model : string) (opt_upscaled_swapper : option bool)
  (postprocessing_options : Type)
  (makedirs : string -> exc unit)
  (enhance_image : image -> postprocessing_options -> exc image)
  (img_save : string -> image -> exc unit).

Local Abbreviation batch_process :=
  (Swapper.batch_process image array pil_to_bgr bgr_to_pil detect
     opt_detection_threshold cosine_similarity swapper getFaceSwapModel
     swapper_get check_against_nsfw format_info current_model
     opt_upscaled_swapper postprocessing_options makedirs enhance_image
     img_save).
Local Abbreviation batch_loop :=
  (Swapper.batch_loop image array pil_to_bgr bgr_to_pil detect
     opt_detection_threshold cosine_similarity swapper getFaceSwapModel
     swapper_get check_against_nsfw format_info current_model
     opt_upscaled_swapper postprocessing_options enhance_image img_save).
Local Abbreviation save_images := (Swapper.save_images image img_save).

(** X17.  Without a list of source images, or without an enabled unit, the
    driver returns [None] and writes no file. *)
Theorem batch_process_nothing_to_do src_images save_path units options saved :
  src_images = None \/ Forall (fun unit => enable unit = false) units ->
  batch_process src_images save_path units options saved = (None, saved).
Proof.
  intros Hnothing. unfold Swapper.batch_process.
  destruct (match path_given save_path with
            | Some path => makedirs path
            | None => Ok tt
            end); [|reflexivity].
  destruct Hnothing as [-> | Hoff]; [reflexivity|].
  replace (List.filter enable units) with (@nil FaceSwapUnitSettings).
  - by destruct src_images.
  - symmetry. clear -Hoff. induction Hoff as [|unit units Hunit _ IH];
      simpl; [reflexivity|]. by rewrite Hunit.
Qed.

Lemma filter_enable_twice (units : list FaceSwapUnitSettings) :
  List.filter enable (List.filter enable units) = List.filter enable units.
Proof.
  induction units as [|unit units IH]; simpl; [reflexivity|].
  destruct (enable unit) eqn:Hon; simpl; [|exact IH].
  by rewrite Hon, IH.
Qed.

(** X18.  Disabled units have no effect on a batch: the driver behaves as if
    they had not been given. *)
Theorem batch_process_skips_disabled src_images save_path units options saved :
  batch_process src_images save_path units options saved
  = batch_process src_images save_path (List.filter enable units) options
      saved.
Proof.
  unfold Swapper.batch_process. by rewrite filter_enable_twice.
Qed.

Lemma save_images_appends path imgs : forall saved,
  exists written,
    (save_images path imgs saved).2 = saved ++ written
    /\ ((save_images path imgs saved).1 = Ok tt -> written = imgs).
Proof.
  induction imgs as [|img imgs IH]; intros saved; simpl.
  - exists []. by rewrite app_nil_r.
  - destruct (img_save path img) as [[]|e].
    + destruct (IH (saved ++ [img])) as (written & Hsaved & Hall).
      exists (img :: written). split.
      * by rewrite Hsaved, <- app_assoc.
      * intros Hok. by rewrite (Hall Hok).
    + exists []. simpl. split; [by rewrite app_nil_r | discriminate].
Qed.

(** The files that a run with these images has to write. *)
Definition files_for (save_path : option string) (images : list image)
    : list image :=
  match path_given save_path with
  | Some _ => images
  | None => []
  end.

(** The loop only ever adds files; when it ends well, the files added are
    the images added to the result if a directory was given, and none
    otherwise. *)
Lemma batch_loop_files units save_path options src_images :
  forall result_images saved,
  exists written,
    (batch_loop units save_path options src_images result_images saved).2
    = saved ++ written
    /\ (path_given save_path = None -> written = [])
    /\ (forall result,
          (batch_loop units save_path options src_images result_images
             saved).1 = Ok result ->
          exists added,
            result = result_images ++ added
            /\ written = files_for save_path added).
Proof.
  unfold files_for.
  induction src_images as [|src src_images IH]; intros result_images saved.
  - exists []. simpl. rewrite app_nil_r. repeat split; try done.
    intros result [= <-]. exists []. rewrite app_nil_r.
    by destruct (path_given save_path).
  - simpl.
    destruct (process_images_units _ _ _ _ _ _ _ _ _ _ _ _ _ _ _ _ _)
      as [[swapped|]|e].
    2,3: exists []; simpl; rewrite app_nil_r; by repeat split.
    destruct (exc_map _ _) as [current|e].
    2: exists []; simpl; rewrite app_nil_r; by repeat split.
    destruct (path_given save_path) as [path|] eqn:Hpath.
    + destruct (save_images_appends path current saved)
        as (written1 & Hsaved1 & Hall1).
      destruct (save_images path current saved) as [[[]|e] saved1];
        simpl in Hsaved1, Hall1.
      * specialize (Hall1 eq_refl). subst written1 saved1.
        destruct (IH (result_images ++ current) (saved ++ current))
          as (written & Hsaved & _ & Hres).
        exists (current ++ written). rewrite Hsaved, <- app_assoc.
        split; [reflexivity|]. split; [discriminate|].
        intros result Hresult.
        destruct (Hres result Hresult) as (added & -> & ->).
        exists (current ++ added). by rewrite <- app_assoc.
      * exists written1. simpl. split; [exact Hsaved1|].
        split; [discriminate | discriminate].
    + destruct (IH (result_images ++ current) saved)
        as (written & Hsaved & Hnone & Hres).
      exists written. split; [exact Hsaved|]. split; [exact Hnone|].
      intros result Hresult.
      destruct (Hres result Hresult) as (added & -> & ->).
      exists (current ++ added). by rewrite <- app_assoc.
Qed.

(** X19.  The driver never removes a file; without a directory it writes none;
    and when it returns images with a directory given, the files written
    are exactly the images returned, in order. *)
Theorem batch_process_files src_images save_path units options saved
    result saved' :
  batch_process src_images save_path units options saved = (result, saved') ->
  (exists written, saved' = saved ++ written)
  /\ (path_given save_path = None -> saved' = saved)
  /\ (forall images,
        result = Some images ->
        saved' = saved ++ files_for save_path images).
Proof.
  unfold Swapper.batch_process.
  assert (Hkeep : forall r : option (list image),
            r = None ->
            (exists written : list image, saved = saved ++ written)
            /\ (path_given save_path = None -> saved = saved)
            /\ (forall images : list image,
                  r = Some images ->
                  saved = saved ++ files_for save_path images)).
  { intros r ->. split; [exists []; by rewrite app_nil_r|]. by split. }
  destruct (match path_given save_path with
            | Some path => makedirs path
            | None => Ok tt
            end); [|intros [= <- <-]; by apply Hkeep].
  destruct src_images as [src_images|]; [|intros [= <- <-]; by apply Hkeep].
  destruct (0 <? _)%nat; [|intros [= <- <-]; by apply Hkeep].
  destruct (batch_loop_files (List.filter enable units) save_path options
              src_images [] saved) as (written & Hsaved & Hnone & Hres).
  destruct (batch_loop _ _ _ _ _ _) as [[images|e] saved1];
    simpl in Hsaved, Hres; intros [= <- <-].
  - split; [eauto|]. split.
    + intros Hpath. by rewrite Hsaved, (Hnone Hpath), app_nil_r.
    + intros ? [= <-]. destruct (Hres images eq_refl) as (added & -> & ->).
      by rewrite Hsaved.
  - split; [eauto|]. split; [|discriminate].
    intros Hpath. by rewrite Hsaved, (Hnone Hpath), app_nil_r.
Qed.

Lemma batch_loop_app units save_path options src_images src_images' :
  forall result_images saved,
  batch_loop units save_path options (src_images ++ src_images')
    result_images saved
  = match batch_loop units save_path options src_images result_images
            saved with
    | (Ok result_images1, saved1) =>
        batch_loop units save_path options src_images' result_images1 saved1
    | (Raise e, saved1) => (Raise e, saved1)
    end.
Proof.
  induction src_images as [|src src_images IH]; intros result_images saved;
    [reflexivity|].
  simpl.
  destruct (process_images_units _ _ _ _ _ _ _ _ _ _ _ _ _ _ _ _ _)
    as [[swapped|]|e]; try reflexivity.
  destruct (exc_map _ _) as [current|e]; [|reflexivity].
  destruct (path_given save_path) as [path|]; [|apply IH].
  destruct (save_images path current saved) as [[[]|e] saved1];
    [apply IH | reflexivity].
Qed.

(** X20.  No partial commit is undone: when the pipeline raises on a source
    image, the driver returns [None], but the files written for the source
    images before it are there, exactly as a run on those images alone
    leaves them. *)
Theorem batch_process_failure_keeps_files handled failing rest save_path units
    options saved images saved1 e :
  batch_process (Some handled) save_path units options saved
  = (Some images, saved1) ->
  process_images_units image array pil_to_bgr bgr_to_pil detect
    opt_detection_threshold cosine_similarity swapper getFaceSwapModel
    swapper_get check_against_nsfw format_info current_model
    (List.filter enable units) [(failing, None)]
    (default false opt_upscaled_swapper) false = Raise e ->
  batch_process (Some (handled ++ failing :: rest)) save_path units options
    saved
  = (None, saved1).
Proof.
  unfold Swapper.batch_process. intros Hhandled Hfail.
  destruct (match path_given save_path with
            | Some path => makedirs path
            | None => Ok tt
            end); [|discriminate].
  destruct (0 <? _)%nat; [|discriminate].
  rewrite batch_loop_app.
  destruct (batch_loop _ _ _ handled _ _) as [[images1|e1] saved2];
    [|discriminate].
  injection Hhandled as <- <-. simpl. by rewrite Hfail.
Qed.

End BatchFacts.

(** ** The helpers of the upscale branch *)

Section UpscaleFacts.

Import Np UpscaledInswapper.

Lemma masked_keep (px : pixel) m :
  m <> 0 -> bitwise_and_masked px px m = px.
Proof.
  intros Hm. unfold bitwise_and_masked.
  replace (m =? 0) with false by (symmetry; by apply Z.eqb_neq).
  destruct px as [[b g] r]. simpl. by rewrite !Z.land_diag.
Qed.

Lemma masked_drop (px : pixel) : bitwise_and_masked px px 0 = (0, 0, 0).
Proof. reflexivity. Qed.

Lemma saturate_add_black_r (px : pixel) :
  pixel_ok px -> saturate_add px (0, 0, 0) = px.
Proof.
  destruct px as [[b g] r]. intros (Hb & Hg & Hr).
  unfold saturate_add, is_uint8 in *. simpl in *.
  rewrite !Z.add_0_r, !Z.min_r by lia. reflexivity.
Qed.

Lemma saturate_add_black_l (px : pixel) :
  pixel_ok px -> saturate_add (0, 0, 0) px = px.
Proof.
  destruct px as [[b g] r]. intros (Hb & Hg & Hr).
  unfold saturate_add, is_uint8 in *. simpl in *.
  rewrite !Z.min_r by lia. reflexivity.
Qed.

(** One pixel of the merge: the first image where the mask is 0, the
    second where it is 255, and the saturated sum of both for any mask
    value in between. *)
Lemma merge_pixel_cases px1 px2 m :
  pixel_ok px1 -> pixel_ok px2 ->
  (m mod 256 = 0 -> merge_pixel_with_mask px1 px2 m = px1)
  /\ (m mod 256 = 255 -> merge_pixel_with_mask px1 px2 m = px2)
  /\ (0 < m mod 256 < 255 ->
      merge_pixel_with_mask px1 px2 m = saturate_add px1 px2).
Proof.
  intros H1 H2. unfold merge_pixel_with_mask. cbv zeta. repeat split.
  - intros ->. rewrite masked_drop.
    rewrite masked_keep by (vm_compute; discriminate).
    by apply saturate_add_black_r.
  - intros ->. rewrite (masked_keep px2) by discriminate.
    change (bitwise_not 255) with 0. rewrite masked_drop.
    by apply saturate_add_black_l.
  - intros Hm. rewrite (masked_keep px2) by lia.
    rewrite (masked_keep px1); [reflexivity|].
    unfold bitwise_not. intros Hzero. apply Z.lxor_eq in Hzero. lia.
Qed.

(** X21.  [merge_images_with_mask] refuses arrays that do not line up; otherwise
    its output has the shape of the inputs, and each pixel is taken from
    the first image where the mask is 0 and from the second where it is
    255; a mask value in between adds the two pixels, saturating. *)
Theorem merge_images_with_mask_pixels (image1 image2 : array2 pixel)
    (mask : array2 Z) :
  (length <$> image1 <> length <$> image2
   \/ length <$> image1 <> length <$> mask ->
   merge_images_with_mask image1 image2 mask = Raise ValueError)
  /\ (forall out i j px1 px2 m,
        merge_images_with_mask image1 image2 mask = Ok out ->
        at2 image1 i j = Some px1 ->
        at2 image2 i j = Some px2 ->
        at2 mask i j = Some m ->
        pixel_ok px1 -> pixel_ok px2 ->
        (m mod 256 = 0 -> at2 out i j = Some px1)
        /\ (m mod 256 = 255 -> at2 out i j = Some px2)
        /\ (0 < m mod 256 < 255 ->
            at2 out i j = Some (saturate_add px1 px2))).
Proof.
  unfold merge_images_with_mask, same_shape. split.
  - intros [Hbad | Hbad]; rewrite (bool_decide_eq_false_2 _ Hbad);
      [reflexivity | by rewrite orb_true_r].
  - intros out i j px1 px2 m Hrun H1 H2 Hm Hok1 Hok2.
    destruct (negb _ || negb _); [discriminate|]. injection Hrun as <-.
    assert (Hat : at2
              (zip_with
                 (fun (rows : list pixel * list pixel) (mask_row : list Z) =>
                    zip_with (fun (px : pixel * pixel) m =>
                                merge_pixel_with_mask px.1 px.2 m)
                      (zip rows.1 rows.2) mask_row)
                 (zip image1 image2) mask) i j
              = Some (merge_pixel_with_mask px1 px2 m)).
    { unfold at2 in *.
      destruct (image1 !! i) as [row1|] eqn:Hr1; [|discriminate].
      destruct (image2 !! i) as [row2|] eqn:Hr2; [|discriminate].
      destruct (mask !! i) as [mask_row|] eqn:Hrm; [|discriminate].
      simpl in H1, H2, Hm.
      rewrite lookup_zip_with.
      rewrite (lookup_zip_with pair image1 image2 i), Hr1, Hr2. simpl.
      rewrite Hrm. simpl. rewrite lookup_zip_with.
      rewrite (lookup_zip_with pair row1 row2 j), H1, H2. simpl.
      by rewrite Hm. }
    rewrite Hat.
    destruct (merge_pixel_cases px1 px2 m Hok1 Hok2) as (H0 & H255 & Hmid).
    repeat split; intros Hcase; f_equal; auto.
Qed.

(** A channel minus itself is zero in [float32]. *)
Lemma self_difference_table :
  forallb (fun c => spec_float_eqb (SFabs (sub32 (f32 c) (f32 c)))
                      (S754_zero false))
    uint8s = true.
Proof. vm_compute. reflexivity. Qed.

Lemma abs_diff_mean_same px : pixel_ok px -> abs_diff_mean px px = f32 0.
Proof.
  destruct px as [[b g] r]. intros (Hb & Hg & Hr). simpl in *.
  unfold abs_diff_mean. simpl.
  assert (Hself : forall c, is_uint8 c ->
            SFabs (sub32 (f32 c) (f32 c)) = S754_zero false).
  { intros c Hc. apply spec_float_eqb_eq.
    apply (proj1 (forallb_forall _ _) self_difference_table).
    by apply is_uint8_elem. }
  by rewrite !Hself.
Qed.

Lemma on_border_small h w i j :
  (h <= 4)%nat \/ (w <= 4)%nat -> on_border h w i j = true.
Proof.
  intros Hsmall. unfold on_border.
  destruct (i <? 2)%nat eqn:Hi; [reflexivity|].
  destruct (h - 2 <=? i)%nat eqn:Hi'; [reflexivity|].
  destruct (j <? 2)%nat eqn:Hj; [reflexivity|].
  destruct (w - 2 <=? j)%nat eqn:Hj'; [reflexivity|].
  apply Nat.ltb_ge in Hi, Hj. apply Nat.leb_gt in Hi', Hj'. lia.
Qed.

(** X22.  The difference that [compute_diff] returns for a patch and a
    crop of one shape has the shape of the patch; it is zero on the two
    outer rows and columns on every side, hence everywhere for a crop of
    height or width up to 4, and zero wherever the patch has the pixel of
    the crop. *)
Theorem compute_diff_zeroes (bgr_fake aimg : array2 pixel) diff :
  compute_diff bgr_fake aimg = Ok diff ->
  length <$> diff = length <$> bgr_fake
  /\ (forall i j x,
        at2 diff i j = Some x ->
        on_border (height bgr_fake) (width bgr_fake) i j = true ->
        x = f32 0)
  /\ ((height bgr_fake <= 4)%nat \/ (width bgr_fake <= 4)%nat ->
      forall i j x, at2 diff i j = Some x -> x = f32 0)
  /\ (forall i j x px,
        at2 diff i j = Some x ->
        at2 bgr_fake i j = Some px ->
        at2 aimg i j = Some px ->
        pixel_ok px ->
        x = f32 0).
Proof.
  unfold compute_diff, same_shape.
  - intros Hrun.
    destruct (bool_decide _) eqn:Hshape; [|discriminate].
    apply bool_decide_eq_true_1 in Hshape. injection Hrun as <-.
    set (h := height bgr_fake). set (w := width bgr_fake).
    assert (Hat : forall i j x,
      at2 (imap
             (fun i (rows : list pixel * list pixel) =>
                imap (fun j (px : pixel * pixel) =>
                        if on_border h w i j then f32 0
                        else abs_diff_mean px.1 px.2)
                  (zip rows.1 rows.2))
             (zip bgr_fake aimg)) i j = Some x ->
      exists px px',
        at2 bgr_fake i j = Some px /\ at2 aimg i j = Some px'
        /\ x = if on_border h w i j then f32 0 else abs_diff_mean px px').
    { intros i j x. unfold at2. rewrite list_lookup_imap.
      rewrite (lookup_zip_with pair bgr_fake aimg i).
      destruct (bgr_fake !! i) as [row|]; [|discriminate].
      destruct (aimg !! i) as [row'|]; [|discriminate]. simpl.
      rewrite list_lookup_imap, (lookup_zip_with pair row row' j).
      destruct (row !! j) as [px|]; [|discriminate].
      destruct (row' !! j) as [px'|]; [|discriminate]. simpl.
      intros [= <-]. by exists px, px'. }
    split; [|split; [|split]].
    + clear Hat.
      assert (Hgen : forall (f : nat -> list pixel * list pixel -> list float32)
                       (fake crop : array2 pixel),
                (forall i rows, length (f i rows) = length (zip rows.1 rows.2)) ->
                length <$> fake = length <$> crop ->
                length <$> imap f (zip fake crop) = length <$> fake).
      { intros f fake. revert f.
        induction fake as [|row fake IH]; intros f [|row' crop] Hf Hs;
          simpl in *; try discriminate; [reflexivity|].
        injection Hs as Hrow Hs. f_equal.
        - rewrite Hf. simpl. rewrite length_zip. lia.
        - apply IH; [|exact Hs]. intros i rows. apply Hf. }
      apply Hgen; [|exact Hshape].
      intros i rows. by rewrite length_imap.
    + intros i j x Hx Hborder.
      destruct (Hat i j x Hx) as (px & px' & _ & _ & ->).
      by rewrite Hborder.
    + intros Hsmall i j x Hx.
      destruct (Hat i j x Hx) as (px & px' & _ & _ & ->).
      by rewrite (on_border_small h w i j Hsmall).
    + intros i j x px Hx Hf Ha Hok.
      destruct (Hat i j x Hx) as (px1 & px2 & Hf' & Ha' & ->).
      rewrite Hf in Hf'. rewrite Ha in Ha'.
      injection Hf' as <-. injection Ha' as <-.
      destruct (on_border h w i j); [reflexivity|].
      by apply abs_diff_mean_same.
Qed.

End UpscaleFacts.

Section UpscalerFacts.

Import UpscaledInswapper.

Context (UpscalerData : Type) (name : UpscalerData -> string)
  (opt_upscaler : option (option string)).

Local Abbreviation get_upscaler :=
  (UpscaledInswapper.get_upscaler UpscalerData name opt_upscaler).
Local Abbreviation wanted := (wanted_upscaler opt_upscaler).

(** X23.  [get_upscaler] returns the first upscaler of the list that carries the
    configured name, and [None] exactly when no upscaler carries it; that
    is always so when the option is stored with the value [None], since the
    fallback "LDSR" only stands in for a missing option. *)
Theorem get_upscaler_first sd_upscalers :
  match get_upscaler sd_upscalers with
  | Some upscaler =>
      exists before after,
        sd_upscalers = before ++ upscaler :: after
        /\ Some (name upscaler) = wanted
        /\ Forall (fun other => Some (name other) <> wanted) before
  | None => Forall (fun other => Some (name other) <> wanted) sd_upscalers
  end
  /\ (opt_upscaler = Some None -> get_upscaler sd_upscalers = None)
  /\ (opt_upscaler = None ->
      forall upscaler, get_upscaler sd_upscalers = Some upscaler ->
                       name upscaler = "LDSR").
Proof.
  assert (Hfirst :
    match get_upscaler sd_upscalers with
    | Some upscaler =>
        exists before after,
          sd_upscalers = before ++ upscaler :: after
          /\ Some (name upscaler) = wanted
          /\ Forall (fun other => Some (name other) <> wanted) before
    | None => Forall (fun other => Some (name other) <> wanted) sd_upscalers
    end).
  { induction sd_upscalers as [|upscaler rest IH]; simpl; [constructor|].
    case_bool_decide as Hname.
    - exists [], rest. by repeat split.
    - destruct (get_upscaler rest) as [found|].
      + destruct IH as (before & after & -> & Hfound & Hbefore).
        exists (upscaler :: before), after. repeat split; try done.
        by constructor.
      + by constructor. }
  split; [exact Hfirst|]. split.
  - intros Hnone. destruct (get_upscaler sd_upscalers) as [upscaler|];
      [|reflexivity].
    destruct Hfirst as (_ & _ & _ & Hname & _).
    unfold wanted_upscaler in Hname. rewrite Hnone in Hname. discriminate.
  - intros Habsent upscaler Hfound. rewrite Hfound in Hfirst.
    destruct Hfirst as (_ & _ & _ & Hname & _).
    unfold wanted_upscaler in Hname. rewrite Habsent in Hname.
    by injection Hname.
Qed.

End UpscalerFacts.

Section PasteBackEdge.

Import Np UpscaledInswapper.

Context (affine : Type) (invertAffineTransform : affine -> affine)
  (warpAffine_u8 : array2 pixel -> affine -> nat * nat -> array2 pixel)
  (warpAffine_f32 : array2 float32 -> affine -> nat * nat -> array2 float32)
  (erode dilate : array2 float32 -> nat -> array2 float32)
  (GaussianBlur : array2 float32 -> Z * Z -> array2 float32)
  (opt_fthresh : option Z) (opt_erosion : option pynum).

Local Abbreviation paste_back :=
  (UpscaledInswapper.paste_back affine invertAffineTransform warpAffine_u8
     warpAffine_f32 erode dilate GaussianBlur opt_fthresh opt_erosion).

(** The white crop in the frame of the target image, line 149. *)
Definition warped_white (target_img : array2 pixel) (aimg_shape : nat * nat)
    (M : affine) : array2 float32 :=
  warpAffine_f32 (full aimg_shape (f32 255)) (invertAffineTransform M)
    (width target_img, height target_img).

(** Of two finite positive values of one format, the one with the larger
    exponent is the larger. *)
Lemma above_lower_exponent m1 e1 m2 e2 v :
  e1 < e2 ->
  SFltb (S754_finite false m1 e1) v = false ->
  SFeqb v (S754_finite false m2 e2) = false.
Proof.
  intros Hexp Hlow. apply not_true_is_false. intros Hwhite.
  unfold SFeqb, SFltb in *.
  destruct v as [s|s| |s m e]; cbn [SFcompare] in Hwhite, Hlow.
  - by destruct s.
  - by destruct s.
  - discriminate.
  - destruct s; [discriminate|].
    destruct (Z.compare e e2) eqn:He; try discriminate.
    apply Z.compare_eq in He. subst e.
    rewrite (proj2 (Z.compare_lt_iff e1 e2) Hexp) in Hlow. discriminate.
Qed.

(** A value that the threshold of line 151 leaves alone is not 255. *)
Lemma below_threshold_not_white v :
  SFltb (f32 20) v = false -> SFeqb v (f32 255) = false.
Proof.
  replace (f32 255) with (S754_finite false 16711680 (-16))
    by (vm_compute; reflexivity).
  replace (f32 20) with (S754_finite false 10485760 (-19))
    by (vm_compute; reflexivity).
  apply above_lower_exponent. lia.
Qed.

Lemma where_eq_none (a : array2 float32) v :
  Forall (Forall (fun x => SFeqb x v = false)) a ->
  where_eq a v = ([], []).
Proof.
  intros Hnone. unfold where_eq.
  replace (concat _) with (@nil (nat * nat)); [reflexivity|].
  symmetry. apply elem_of_nil_inv. intros hit Hhit.
  apply list_elem_of_In, in_concat in Hhit as (hits & Hhits & Hin).
  apply list_elem_of_In, elem_of_lookup_imap_1 in Hhits
    as (i & row & -> & Hrow).
  apply list_elem_of_In, list_elem_of_omap in Hin as ([j x] & Hjx & Hsome).
  apply elem_of_lookup_imap_1 in Hjx as (j' & x' & [= -> ->] & Hx).
  rewrite Forall_forall in Hnone.
  assert (Hrow' : Forall (fun x => SFeqb x v = false) row).
  { apply Hnone. by apply list_elem_of_lookup_2 in Hrow. }
  rewrite Forall_forall in Hrow'.
  rewrite (Hrow' x') in Hsome; [discriminate|].
  by apply list_elem_of_lookup_2 in Hx.
Qed.

(** X24.  When the warped crop covers no pixel of the target image with a value
    above 20 (the face lies outside the image, say), no mask entry is 255
    and the paste-back step raises [ValueError]: [np.max] of an empty
    array. *)
Theorem paste_back_nothing_covered target_img bgr_fake aimg_shape fake_diff M :
  Forall (Forall (fun v => SFltb (f32 20) v = false))
    (warped_white target_img aimg_shape M) ->
  paste_back target_img bgr_fake aimg_shape fake_diff M = Raise ValueError.
Proof.
  intros Hlow. unfold UpscaledInswapper.paste_back, presence_mask.
  fold (warped_white target_img aimg_shape M).
  rewrite where_eq_none; [reflexivity|].
  unfold map2. apply Forall_fmap, Forall_forall. intros row Hrow.
  unfold compose. cbv beta.
  apply Forall_fmap, Forall_forall. intros v Hv.
  unfold compose. cbv beta.
  rewrite Forall_forall in Hlow. specialize (Hlow row Hrow).
  rewrite Forall_forall in Hlow. specialize (Hlow v Hv).
  cbv beta in Hlow.
  rewrite Hlow. by apply below_threshold_not_white.
Qed.

End PasteBackEdge.

(** ** Instances of the further properties

    The instance of the pipeline above, extended with a cosine that is
    negative, a detector that finds a face in the images of even number
    only, a disabled unit, a filter that flags every image, a swap engine
    that fails on image 7 and a batch driver whose file operations
    succeed. *)

Definition cold_cosine (_ _ : list Np.float32) : exc Qc := Ok (Q2Qc (- 1 # 2)).

Definition detect_even (img : nat) (_ : Z * Z) (_ : Qc) : list Swapper.Face :=
  if Nat.even img then [demo_target] else [].

Definition demo_disabled : Swapper.FaceSwapUnitSettings :=
  Swapper.mkUnit false [] None None ∅ false false false false false 0%Qc 0%Qc.

Definition demo_flag_all (_ : nat) : bool := true.

Definition demo_get_fragile (_ : unit) (a : nat) (_ _ : Swapper.Face)
    (_ : bool) : exc nat :=
  if (a =? 7)%nat then Raise ExternalError else Ok (S a).

Definition demo_makedirs (_ : string) : exc unit := Ok tt.
Definition demo_enhance (img : nat) (_ : unit) : exc nat := Ok img.
Definition demo_save (_ : string) (_ : nat) : exc unit := Ok tt.

Definition demo_batch_process :=
  Swapper.batch_process nat nat id id demo_detect None demo_cosine unit
    demo_model demo_get_fragile demo_nsfw demo_format "inswapper" None unit
    demo_makedirs demo_enhance demo_save.

(** The outputs of a rejecting unit on the two outputs of [swapped_twice]. *)
Definition rejected_twice : list (list (list (nat * option string))) :=
  [[ []; [] ]].

(** A warp that leaves nothing of its input in the frame. *)
Definition blank_warp (_ : list (list Np.float32)) (_ : unit)
    (dsize : nat * nat) : list (list Np.float32) :=
  Np.full (dsize.2, dsize.1) (Np.f32 0).

Lemma cosine_similarity_face_clamped_witness :
  exists score,
    Swapper.cosine_similarity_face cold_cosine demo_target demo_target
    = Ok score
    /\ (0 <= score)%Qc
    /\ ((0 < Q2Qc (- 1 # 2))%Qc -> score = Q2Qc (- 1 # 2))
    /\ ((Q2Qc (- 1 # 2) <= 0)%Qc -> score = 0%Qc).
Proof.
  apply (cosine_similarity_face_clamped cold_cosine demo_target demo_target
           (Q2Qc (- 1 # 2)) eq_refl).
Defined.

Example get_or_default_negative :
  Swapper.get_or_default [10; 20] 1 0 = Swapper.Return 20
  /\ Swapper.get_or_default [10; 20] 2 0 = Swapper.Return 0
  /\ Swapper.get_or_default [10; 20] (-1) 0 = Swapper.Return 20
  /\ Swapper.get_or_default [10; 20] (-3) 0 = Swapper.Fail Swapper.IndexError.
Proof. repeat split. Qed.

Lemma compare_faces_sentinel_witness :
  (- 1)%Qc = (- 1)%Qc
  <-> located nat nat id detect_even None 0%nat = []
      \/ located nat nat id detect_even None 1%nat = [].
Proof.
  apply (proj1
           (compare_faces_sentinel nat nat id detect_even None demo_cosine
              0%nat 1%nat (- 1)%Qc ltac:(vm_compute; reflexivity))).
Defined.

Lemma get_faces_from_img_files_first_faces_witness :
  Swapper.get_faces_from_img_files nat nat nat id (fun file => Ok file)
    detect_even None [0%nat; 1%nat; 2%nat]
  = Swapper.Return
      (omap (fun img => head (located nat nat id detect_even None img))
         [0%nat; 1%nat; 2%nat])
  /\ (length
        (omap (fun img => head (located nat nat id detect_even None img))
           [0%nat; 1%nat; 2%nat])
      <= length [0%nat; 1%nat; 2%nat])%nat.
Proof.
  apply (get_faces_from_img_files_first_faces nat nat nat id
           (fun file => Ok file) detect_even None [0%nat; 1%nat; 2%nat]
           [0%nat; 1%nat; 2%nat]).
  repeat constructor.
Defined.

Example get_faces_from_img_files_demo :
  Swapper.get_faces_from_img_files nat nat nat id (fun file => Ok file)
    detect_even None [0%nat; 1%nat; 2%nat]
  = Swapper.Return [demo_target; demo_target].
Proof. vm_compute. reflexivity. Qed.

Lemma blend_faces_shape_mismatch_witness :
  Swapper.blend_faces [face_of [1; 0]; face_of [1]] = Raise ValueError.
Proof.
  apply (blend_faces_shape_mismatch (face_of [1; 0]) [face_of [1]]).
  constructor. vm_compute. discriminate.
Defined.

Lemma swap_face_nothing_selected_witness :
  Swapper.swap_face nat nat id id demo_detect None demo_cosine unit demo_model
    demo_get None (Some (face_of [1; 0])) 0%nat "inswapper" {[5%nat]} false
    false true false
  = Ok (Swapper.mkImageResult (id (id 0%nat)) ∅ ∅).
Proof.
  apply (swap_face_nothing_selected nat nat id id demo_detect None demo_cosine
           unit demo_model demo_get None (face_of [1; 0]) 0%nat "inswapper"
           {[5%nat]} false false true false tt eq_refl).
  intros i Hi Hin. apply elem_of_singleton in Hin. subst i.
  vm_compute in Hi. lia.
Defined.

Lemma swap_face_scores_witness :
  scores_ok {[0%nat]}
    (length
       (target_faces_of nat nat id demo_detect None (face_of [1; 0]) 0%nat
          false false))
    (Swapper.similarity scored, Swapper.ref_similarity scored).
Proof.
  apply (swap_face_scores nat nat id id demo_detect None demo_cosine unit
           demo_model demo_get (Some (face_of [1; 0])) (face_of [1; 0]) 0%nat
           "inswapper" {[0%nat]} false false true false scored).
  vm_compute. reflexivity.
Defined.

Lemma process_image_unit_at_most_witness :
  (length swapped_twice
   <= fan_out (demo_unit false true true (Q2Qc (1 # 2))))%nat
  /\ Forall (fun pair : nat * option string => is_Some pair.2) swapped_twice.
Proof.
  apply (process_image_unit_at_most nat nat id id demo_detect None demo_cosine
           unit demo_model demo_get demo_nsfw demo_format "inswapper"
           (demo_unit false true true (Q2Qc (1 # 2))) 0%nat None false
           swapped_twice).
  - reflexivity.
  - reflexivity.
  - vm_compute. reflexivity.
Defined.

Lemma process_images_units_disabled_head_witness :
  demo_process_images_units [demo_disabled; demo_unit false false false 0%Qc]
    [(0%nat, None)] false false
  = Ok (Some []).
Proof.
  apply (process_images_units_disabled_head nat nat id id demo_detect None
           demo_cosine unit demo_model demo_get demo_nsfw demo_format
           "inswapper" demo_disabled [demo_unit false false false 0%Qc]
           [(0%nat, None)] false false eq_refl).
Defined.

Lemma process_images_units_flagged_witness :
  Swapper.process_images_units nat nat id id demo_detect None demo_cosine unit
    demo_model demo_get demo_flag_all demo_format "inswapper"
    [demo_unit false false false 0%Qc; demo_unit true false false 0%Qc]
    [(0%nat, None); (3%nat, Some "kept")] false false
  = Ok (Some [(0%nat, None); (3%nat, Some "kept")]).
Proof.
  apply (process_images_units_flagged nat nat id id demo_detect None
           demo_cosine unit demo_model demo_get demo_flag_all demo_format
           "inswapper"
           [demo_unit false false false 0%Qc; demo_unit true false false 0%Qc]
           [(0%nat, None); (3%nat, Some "kept")] false false).
  - discriminate.
  - repeat constructor.
  - repeat constructor.
Defined.

Lemma process_images_units_two_witness :
  demo_process_images_units
    [demo_unit false false false 0%Qc; demo_unit false true false 0%Qc]
    [(0%nat, None)] false false
  = Ok (Some (concat (zip_with (keep_or_replace nat) [swapped_twice]
                        rejected_twice)))
  /\ (Forall (Forall (fun out => out = [])) rejected_twice ->
      demo_process_images_units
        [demo_unit false false false 0%Qc; demo_unit false true false 0%Qc]
        [(0%nat, None)] false false
      = demo_process_images_units [demo_unit false false false 0%Qc]
          [(0%nat, None)] false false).
Proof.
  apply (process_images_units_two nat nat id id demo_detect None demo_cosine
           unit demo_model demo_get demo_nsfw demo_format "inswapper"
           (demo_unit false false false 0%Qc)
           (demo_unit false true false 0%Qc) [(0%nat, None)] [swapped_twice]
           rejected_twice false false).
  - constructor; [vm_compute; reflexivity | constructor].
  - constructor; [|constructor].
    constructor; [vm_compute; reflexivity|].
    constructor; [vm_compute; reflexivity | constructor].
Defined.

Example two_units_keep_first :
  demo_process_images_units
    [demo_unit false false false 0%Qc; demo_unit false true false 0%Qc]
    [(0%nat, None)] false false
  = Ok (Some swapped_twice).
Proof. vm_compute. reflexivity. Qed.

Lemma batch_process_nothing_to_do_witness :
  demo_batch_process (Some [0%nat]) (Some "out") [demo_disabled] tt []
  = (None, []).
Proof.
  apply (batch_process_nothing_to_do nat nat id id demo_detect None
           demo_cosine unit demo_model demo_get_fragile demo_nsfw demo_format
           "inswapper" None unit demo_makedirs demo_enhance demo_save
           (Some [0%nat]) (Some "out") [demo_disabled] tt []).
  right. repeat constructor.
Defined.

Lemma batch_process_files_witness :
  (exists written, [1; 1; 2; 2]%nat = [] ++ written)
  /\ (Swapper.path_given (Some "out") = None -> [1; 1; 2; 2]%nat = [])
  /\ (forall images,
        Some [1; 1; 2; 2]%nat = Some images ->
        [1; 1; 2; 2]%nat = [] ++ files_for nat (Some "out") images).
Proof.
  apply (batch_process_files nat nat id id demo_detect None demo_cosine unit
           demo_model demo_get_fragile demo_nsfw demo_format "inswapper" None
           unit demo_makedirs demo_enhance demo_save (Some [0; 1]%nat)
           (Some "out") [demo_unit false false false 0%Qc] tt []
           (Some [1; 1; 2; 2]%nat) [1; 1; 2; 2]%nat).
  vm_compute. reflexivity.
Defined.

Lemma batch_process_failure_keeps_files_witness :
  demo_batch_process (Some ([0%nat] ++ 7%nat :: [1%nat])) (Some "out")
    [demo_unit false false false 0%Qc] tt []
  = (None, [1; 1]%nat).
Proof.
  apply (batch_process_failure_keeps_files nat nat id id demo_detect None
           demo_cosine unit demo_model demo_get_fragile demo_nsfw demo_format
           "inswapper" None unit demo_makedirs demo_enhance demo_save
           [0%nat] 7%nat [1%nat] (Some "out")
           [demo_unit false false false 0%Qc] tt [] [1; 1]%nat [1; 1]%nat
           ExternalError).
  - vm_compute. reflexivity.
  - vm_compute. reflexivity.
Defined.

Example merge_images_with_mask_demo :
  UpscaledInswapper.merge_images_with_mask demo_image demo_patch [[0; 255]]
  = Ok [[(10, 20, 30); (4, 5, 6)]]
  /\ UpscaledInswapper.merge_images_with_mask demo_image demo_patch [[0]]
     = Raise ValueError.
Proof. split; vm_compute; reflexivity. Qed.

Lemma compute_diff_zeroes_witness :
  length <$> [[Np.f32 0; Np.f32 0]] = length <$> demo_image.
Proof.
  apply (proj1
           (compute_diff_zeroes demo_image demo_patch
              [[Np.f32 0; Np.f32 0]] ltac:(vm_compute; reflexivity))).
Defined.

Example get_upscaler_demo :
  UpscaledInswapper.get_upscaler string id None ["ESRGAN"; "LDSR"; "LDSR"]
  = Some "LDSR"
  /\ UpscaledInswapper.get_upscaler string id (Some None) ["ESRGAN"; "LDSR"]
     = None
  /\ UpscaledInswapper.get_upscaler string id (Some (Some "ESRGAN"))
       ["ESRGAN"; "LDSR"]
     = Some "ESRGAN".
Proof. repeat split. Qed.

Lemma paste_back_nothing_covered_witness :
  UpscaledInswapper.paste_back unit id keep_warp blank_warp keep_kernel
    keep_kernel clear_second None None demo_image demo_patch (1%nat, 2%nat)
    demo_diff tt
  = Raise ValueError.
Proof.
  apply (paste_back_nothing_covered unit id keep_warp blank_warp keep_kernel
           keep_kernel clear_second None None demo_image demo_patch
           (1%nat, 2%nat) demo_diff tt).
  vm_compute. repeat constructor.
Defined.
